(** * tesla-mcp: token lifecycle, vehicle cache and tool adapter

    A shallow embedding of [src/teslaService.ts] (the [TeslaService] class)
    and of the MCP server module (module-level vehicle cache, request
    handlers), with the theorems that settle the specification's claims.

    Modelling conventions.
    - Asynchronous code is sequential here: the server handles one request at
      a time and suspends only at HTTP calls, so [await] is plain sequencing.
    - Mutable state (the service's private fields, the module-level cache
      variables) and the outside world (clock, [process.env], the remote
      endpoints) are threaded through a state-and-exception monad [M].
      A JavaScript exception keeps every assignment made before it, so a
      throwing computation still returns the mutated world.
    - [Date.now()] reads a synthetic clock.  The clock moves only while an
      HTTP call is awaited (by the latency scripted with the reply) or when a
      test driver advances it between calls.
    - The remote endpoints are scripted: each endpoint has a queue of replies,
      one consumed per request.  An exhausted queue answers with a network
      error.
    - JavaScript numbers are restricted to integers plus [NaN] (the value of
      [undefined * 1000]); fractional values are outside the model.
    - [console.error] logging is omitted.  The only instrumentation is
      [trace], the ordered list of service-operation entries and HTTP
      requests, which is what a mock remote client would record. *)

From Stdlib Require Import ZArith String Ascii List Bool Lia DecimalString.
Import ListNotations.

Open Scope string_scope.
Open Scope list_scope.
Open Scope Z_scope.

(* ===================================================================== *)
(** ** JavaScript values *)
(* ===================================================================== *)

(** A JavaScript number: an integer or [NaN]. *)
Inductive jsnum : Type :=
| Num (z : Z)
| NaN.

(** [a + b] on numbers. *)
Definition num_add (a b : jsnum) : jsnum :=
  match a, b with
  | Num x, Num y => Num (x + y)
  | _, _ => NaN
  end.

(** [a * b] on numbers. *)
Definition num_mul (a b : jsnum) : jsnum :=
  match a, b with
  | Num x, Num y => Num (x * y)
  | _, _ => NaN
  end.

(** [a >= b]: every comparison with [NaN] is false. *)
Definition num_ge (a b : jsnum) : bool :=
  match a, b with
  | Num x, Num y => x >=? y
  | _, _ => false
  end.

(** A field read from a JSON body, used as a number: [undefined] becomes
    [NaN] in arithmetic. *)
Definition to_num (v : option Z) : jsnum :=
  match v with
  | Some z => Num z
  | None => NaN
  end.

(** Truthiness of a string. *)
Definition truthy (s : string) : bool := negb (String.eqb s "").

(** [!v] for a value that is a string, [null] or [undefined]. *)
Definition falsy (v : option string) : bool :=
  match v with
  | Some s => negb (truthy s)
  | None => true
  end.

(** [String(n)] for an integer [n]. *)
Definition String_of_Z (z : Z) : string := NilZero.string_of_int (Z.to_int z).

(** [String(n)] for a length. *)
Definition String_of_nat (n : nat) : string := String_of_Z (Z.of_nat n).

(** The line feed and the double quote of the string literals. *)
Definition LF : string := String (ascii_of_nat 10) EmptyString.
Definition DQ : string := String (ascii_of_nat 34) EmptyString.

(* ===================================================================== *)
(** ** Data model *)
(* ===================================================================== *)

(** [interface Vehicle], with the field types the interface declares; the
    open-ended telemetry fields are not read by the modelled code and are
    left out. *)
Record Vehicle : Type := {
  id : string;
  vin : string;
  display_name : string;
  state : string;
  vehicle_id : Z
}.

(** Text built by template literals.  [JSON.stringify] is kept symbolic:
    of a response body it is the body's JSON text, of a string it is the
    quoted string. *)
Inductive Message : Type :=
| Str (s : string)
| Cat (prefix : string) (rest : Message)
| JSON_stringify_data (json : string)
| JSON_stringify_string (m : Message).

(** The [response] property of an axios error: status and body.  The body is
    [None] when it is falsy, else its JSON text. *)
Record ErrorResponse : Type := {
  err_status : Z;
  err_data : option string
}.

(** Exceptions.  [AxiosError] carries [response] only when the remote
    answered (with a status outside 2xx). *)
Inductive JsError : Type :=
| Error (message : Message)
| TypeError (message : string)
| AxiosError (message : string) (response : option ErrorResponse).

(** [error.message] *)
Definition error_message (e : JsError) : Message :=
  match e with
  | Error m => m
  | TypeError m => Str m
  | AxiosError m _ => Str m
  end.

(** [JSON.stringify(error.response?.data || error.message)] *)
Definition error_details (e : JsError) : Message :=
  match e with
  | AxiosError m (Some r) =>
      match err_data r with
      | Some j => JSON_stringify_data j
      | None => JSON_stringify_string (Str m)
      end
  | _ => JSON_stringify_string (error_message e)
  end.

(** JSON bodies of the three endpoints, as far as the code reads them. *)
Record TokenData : Type := {
  access_token : option string;
  expires_in : option Z
}.

Record VehiclesData : Type := {
  vehicles_response : option (list Vehicle)
}.

Record WakeData : Type := {
  wake_response : option Vehicle
}.

(** What awaiting an axios call yields.  axios resolves on a 2xx status and
    rejects otherwise; [data] is [None] for a [null] body. *)
Inductive AxiosOutcome (A : Type) : Type :=
| Resolved (status : Z) (data : option A)
| RejectedStatus (message : string) (response : ErrorResponse)
| RejectedNetwork (message : string).

Arguments Resolved {A} status data.
Arguments RejectedStatus {A} message response.
Arguments RejectedNetwork {A} message.

(** A scripted reply: the latency of the call and its outcome. *)
Record Reply (A : Type) : Type := {
  delay : Z;
  outcome : AxiosOutcome A
}.

Arguments delay {A} r.
Arguments outcome {A} r.

(** [process.env], the three credentials. *)
Record Env : Type := {
  TESLA_CLIENT_ID : option string;
  TESLA_CLIENT_SECRET : option string;
  TESLA_REFRESH_TOKEN : option string
}.

(** Instrumentation: entries of the service's public operations and HTTP
    requests, oldest first. *)
Inductive Method : Type := GET | POST.

Inductive Event : Type :=
| CallGetVehicles
| CallWakeUp (vehicleId : string)
| Http (method : Method) (url : string) (bearer : option string).

(** The private fields of [TeslaService]. *)
Record Service : Type := {
  accessToken : option string;
  tokenExpiration : jsnum;
  isRegistered : bool
}.

(** The module-level cache variables of the server. *)
Record Cache : Type := {
  vehiclesCache : list Vehicle;
  lastVehicleFetch : Z
}.

(** Everything outside the program. *)
Record Remote : Type := {
  clock : Z;
  env : Env;
  auth_replies : list (Reply TokenData);
  list_replies : list (Reply VehiclesData);
  wake_replies : list (Reply WakeData);
  trace : list Event
}.

Record World : Type := {
  svc : Service;
  cache : Cache;
  remote : Remote
}.

(** Field updates. *)
Definition set_accessToken (v : option string) (w : World) : World :=
  {| svc := {| accessToken := v;
               tokenExpiration := tokenExpiration (svc w);
               isRegistered := isRegistered (svc w) |};
     cache := cache w;
     remote := remote w |}.

Definition set_tokenExpiration (v : jsnum) (w : World) : World :=
  {| svc := {| accessToken := accessToken (svc w);
               tokenExpiration := v;
               isRegistered := isRegistered (svc w) |};
     cache := cache w;
     remote := remote w |}.

Definition set_vehiclesCache (v : list Vehicle) (w : World) : World :=
  {| svc := svc w;
     cache := {| vehiclesCache := v;
                 lastVehicleFetch := lastVehicleFetch (cache w) |};
     remote := remote w |}.

Definition set_lastVehicleFetch (v : Z) (w : World) : World :=
  {| svc := svc w;
     cache := {| vehiclesCache := vehiclesCache (cache w);
                 lastVehicleFetch := v |};
     remote := remote w |}.

Definition set_remote (r : Remote) (w : World) : World :=
  {| svc := svc w; cache := cache w; remote := r |}.

(** The test driver's clock control: move the clock by [dt]. *)
Definition advance (dt : Z) (w : World) : World :=
  set_remote {| clock := clock (remote w) + dt;
                env := env (remote w);
                auth_replies := auth_replies (remote w);
                list_replies := list_replies (remote w);
                wake_replies := wake_replies (remote w);
                trace := trace (remote w) |} w.

(* ===================================================================== *)
(** ** The monad of effects *)
(* ===================================================================== *)

Inductive Outcome (A : Type) : Type :=
| Return (a : A)
| Throw (e : JsError).

Arguments Return {A} a.
Arguments Throw {A} e.

Definition M (A : Type) : Type := World -> Outcome A * World.

Definition ret {A} (a : A) : M A := fun w => (Return a, w).

Definition bind {A B} (c : M A) (k : A -> M B) : M B :=
  fun w =>
    match c w with
    | (Return a, w') => k a w'
    | (Throw e, w') => (Throw e, w')
    end.

Definition throw {A} (e : JsError) : M A := fun w => (Throw e, w).

(** [try { c } catch (error) { h error }] *)
Definition try_catch {A} (c : M A) (h : JsError -> M A) : M A :=
  fun w =>
    match c w with
    | (Return a, w') => (Return a, w')
    | (Throw e, w') => h e w'
    end.

Definition gets {A} (f : World -> A) : M A := fun w => (Return (f w), w).

Definition modify (f : World -> World) : M unit := fun w => (Return tt, f w).

Declare Scope js_scope.
Delimit Scope js_scope with js.

Notation "x <- c ;; k" := (bind c (fun x => k))
  (at level 100, c at next level, right associativity) : js_scope.
Notation "c ;;; k" := (bind c (fun _ => k))
  (at level 100, right associativity) : js_scope.

Open Scope js_scope.

(** [Date.now()] *)
Definition Date_now : M Z := gets (fun w => clock (remote w)).

(** Instrumentation: append an event to the trace. *)
Definition emit (e : Event) : M unit :=
  modify (fun w =>
    set_remote {| clock := clock (remote w);
                  env := env (remote w);
                  auth_replies := auth_replies (remote w);
                  list_replies := list_replies (remote w);
                  wake_replies := wake_replies (remote w);
                  trace := trace (remote w) ++ [e] |} w).

(** Awaiting an axios promise: the latency passes, then the call resolves
    with the response or rejects with an [AxiosError]. *)
Definition settle {A} (r : option (Reply A)) : M (Z * option A) :=
  match r with
  | None => throw (AxiosError "Network Error" None)
  | Some rp =>
      modify (advance (delay rp)) ;;;
      match outcome rp with
      | Resolved status data => ret (status, data)
      | RejectedStatus m resp => throw (AxiosError m (Some resp))
      | RejectedNetwork m => throw (AxiosError m None)
      end
  end.

(** Take the next scripted reply of each endpoint. *)
Definition next_auth_reply : M (option (Reply TokenData)) :=
  fun w =>
    let r := remote w in
    (Return (hd_error (auth_replies r)),
     set_remote {| clock := clock r; env := env r;
                   auth_replies := tl (auth_replies r);
                   list_replies := list_replies r;
                   wake_replies := wake_replies r;
                   trace := trace r |} w).

Definition next_list_reply : M (option (Reply VehiclesData)) :=
  fun w =>
    let r := remote w in
    (Return (hd_error (list_replies r)),
     set_remote {| clock := clock r; env := env r;
                   auth_replies := auth_replies r;
                   list_replies := tl (list_replies r);
                   wake_replies := wake_replies r;
                   trace := trace r |} w).

Definition next_wake_reply : M (option (Reply WakeData)) :=
  fun w =>
    let r := remote w in
    (Return (hd_error (wake_replies r)),
     set_remote {| clock := clock r; env := env r;
                   auth_replies := auth_replies r;
                   list_replies := list_replies r;
                   wake_replies := tl (wake_replies r);
                   trace := trace r |} w).

(* ===================================================================== *)
(** ** [TeslaService] (src/teslaService.ts) *)
(* ===================================================================== *)

Definition BASE_URL : string := "https://fleet-api.prd.na.vn.cloud.tesla.com".
Definition AUTH_URL : string := "https://auth.tesla.com/oauth2/v3/token".

Module TeslaService.

(** The message of the registration check, shared by [getVehicles] and
    [wakeUp]. *)
Definition NOT_REGISTERED : string :=
  "Application is not registered with Tesla API. Run " ++ DQ ++ "pnpm register"
  ++ DQ ++ " to complete the registration process".

(** The state the constructor leaves: no token, expiration 0, registration
    as found on disk. *)
Definition constructor (registered : bool) : Service :=
  {| accessToken := None;
     tokenExpiration := Num 0;
     isRegistered := registered |}.

(** [axios.post(AUTH_URL, params, ...)] *)
Definition post_token : M (Z * option TokenData) :=
  emit (Http POST AUTH_URL None) ;;;
  r <- next_auth_reply ;;
  settle r.

(** [private async authorize(): Promise<void>] *)
Definition authorize : M unit :=
  try_catch
    (clientId <- gets (fun w => TESLA_CLIENT_ID (env (remote w))) ;;
     clientSecret <- gets (fun w => TESLA_CLIENT_SECRET (env (remote w))) ;;
     refreshToken <- gets (fun w => TESLA_REFRESH_TOKEN (env (remote w))) ;;
     if falsy clientId then
       throw (Error (Str "TESLA_CLIENT_ID is not set in environment variables"))
     else if falsy clientSecret then
       throw (Error (Str "TESLA_CLIENT_SECRET is not set in environment variables"))
     else if falsy refreshToken then
       throw (Error (Str "TESLA_REFRESH_TOKEN is not set in environment variables"))
     else
       response <- post_token ;;
       match snd response with
       | None =>
           throw (TypeError "Cannot read properties of null (reading 'access_token')")
       | Some data =>
           modify (set_accessToken (access_token data)) ;;;
           now <- Date_now ;;
           modify (set_tokenExpiration
                     (num_add (Num now) (num_mul (to_num (expires_in data)) (Num 1000))))
       end)
    (fun error =>
       throw (Error (Cat "Failed to authorize with Tesla API: " (error_details error)))).

(** The test of [getAccessToken]:
    [!this.accessToken || Date.now() >= this.tokenExpiration]. *)
Definition token_needs_refresh (w : World) : bool :=
  falsy (accessToken (svc w))
  || num_ge (Num (clock (remote w))) (tokenExpiration (svc w)).

(** [private async getAccessToken(): Promise<string>] *)
Definition getAccessToken : M string :=
  stale <- gets token_needs_refresh ;;
  (if stale then authorize else ret tt) ;;;
  token <- gets (fun w => accessToken (svc w)) ;;
  if falsy token then
    throw (Error (Str "Could not obtain access token"))
  else
    match token with
    | Some t => ret t
    | None => throw (Error (Str "Could not obtain access token"))
    end.

(** [axios.get(`${BASE_URL}/api/1/vehicles`, ...)] *)
Definition get_vehicles (token : string) : M (Z * option VehiclesData) :=
  emit (Http GET (BASE_URL ++ "/api/1/vehicles") (Some token)) ;;;
  r <- next_list_reply ;;
  settle r.

(** [async getVehicles(): Promise<Vehicle[]>] *)
Definition getVehicles : M (list Vehicle) :=
  emit CallGetVehicles ;;;
  token <- getAccessToken ;;
  try_catch
    (registered <- gets (fun w => isRegistered (svc w)) ;;
     if negb registered then
       throw (Error (Str NOT_REGISTERED))
     else
       response <- get_vehicles token ;;
       match snd response with
       | None =>
           throw (TypeError "Cannot read properties of null (reading 'response')")
       | Some data =>
           match vehicles_response data with
           | Some vehicles => ret vehicles
           | None => ret []
           end
       end)
    (fun _ => throw (Error (Str "Failed to fetch vehicles"))).

(** The wake endpoint of a vehicle. *)
Definition wakeUpUrl (vehicleId : string) : string :=
  BASE_URL ++ "/api/1/vehicles/" ++ vehicleId ++ "/wake_up".

(** [axios.post(wakeUpUrl, {}, ...)] *)
Definition post_wake (url token : string) : M (Z * option WakeData) :=
  emit (Http POST url (Some token)) ;;;
  r <- next_wake_reply ;;
  settle r.

(** [async wakeUp(vehicleId: string): Promise<Vehicle>]; the result is
    [None] when the body has no [response]. *)
Definition wakeUp (vehicleId : string) : M (option Vehicle) :=
  emit (CallWakeUp vehicleId) ;;;
  token <- getAccessToken ;;
  try_catch
    (registered <- gets (fun w => isRegistered (svc w)) ;;
     if negb registered then
       throw (Error (Str NOT_REGISTERED))
     else
       try_catch
         (response <- post_wake (wakeUpUrl vehicleId) token ;;
          match snd response with
          | None =>
              throw (TypeError "Cannot read properties of null (reading 'response')")
          | Some data => ret (wake_response data)
          end)
         (fun axiosError => throw axiosError))
    (fun error =>
       throw (Error (Cat "Failed to wake up vehicle: " (error_message error)))).

End TeslaService.

(* ===================================================================== *)
(** ** The MCP server module: vehicle cache and request handlers *)
(* ===================================================================== *)

Definition CACHE_TTL : Z := 60000.

(** The cache variables at module load: [[]] and [0]. *)
Definition initial_cache : Cache :=
  {| vehiclesCache := []; lastVehicleFetch := 0 |}.

(** The test of the cache read:
    [forceRefresh || vehiclesCache.length === 0
     || (now - lastVehicleFetch) > CACHE_TTL]. *)
Definition cache_needs_refresh (forceRefresh : bool) (w : World) : bool :=
  forceRefresh
  || (length (vehiclesCache (cache w)) =? 0)%nat
  || (clock (remote w) - lastVehicleFetch (cache w) >? CACHE_TTL).

(** [async function getVehicles(forceRefresh = false): Promise<Vehicle[]>].
    The [return []] inside the [catch] is the [Some] of the inner result. *)
Definition getVehicles (forceRefresh : bool) : M (list Vehicle) :=
  now <- Date_now ;;
  refresh <- gets (cache_needs_refresh forceRefresh) ;;
  early <-
    (if refresh then
       try_catch
         (vehicles <- TeslaService.getVehicles ;;
          modify (set_vehiclesCache vehicles) ;;;
          modify (set_lastVehicleFetch now) ;;;
          ret None)
         (fun _ =>
            cached <- gets (fun w => vehiclesCache (cache w)) ;;
            if (length cached =? 0)%nat then ret (Some []) else ret None)
     else ret None) ;;
  match early with
  | Some result => ret result
  | None => gets (fun w => vehiclesCache (cache w))
  end.

(** [a || b] on strings. *)
Definition or_else (a b : string) : string := if truthy a then a else b.

Module Resource.

Record t : Type := {
  uri : string;
  mimeType : string;
  name : string;
  description : string
}.

End Resource.

(** The descriptor of one vehicle in the [ListResources] handler. *)
Definition resource_of (vehicle : Vehicle) : Resource.t :=
  {| Resource.uri := "tesla://" ++ id vehicle;
     Resource.mimeType := "application/json";
     Resource.name :=
       or_else (display_name vehicle) ("Tesla (" ++ vin vehicle ++ ")");
     Resource.description :=
       "Tesla vehicle: " ++ or_else (display_name vehicle) "Unknown"
       ++ " (VIN: " ++ vin vehicle ++ ")" |}.

(** Handler of [ListResourcesRequestSchema]. *)
Definition listResources : M (list Resource.t) :=
  vehicles <- getVehicles false ;;
  ret (map resource_of vehicles).

Module Tool.

(** A tool descriptor; every input schema is an object with one required
    string property. *)
Record t : Type := {
  name : string;
  description : string;
  property : string;
  property_description : string
}.

End Tool.

Definition wake_up_tool : Tool.t :=
  {| Tool.name := "wake_up";
     Tool.description := "Wake up your Tesla vehicle from sleep mode";
     Tool.property := "vehicle_id";
     Tool.property_description :=
       "Tag of the vehicle to wake up (can be id, vehicle_id, or vin)" |}.

Definition refresh_vehicles_tool : Tool.t :=
  {| Tool.name := "refresh_vehicles";
     Tool.description := "Refresh the list of Tesla vehicles";
     Tool.property := "random_string";
     Tool.property_description := "Dummy parameter for no-parameter tools" |}.

Definition debug_vehicles_tool : Tool.t :=
  {| Tool.name := "debug_vehicles";
     Tool.description := "Show debug information about available vehicles";
     Tool.property := "random_string";
     Tool.property_description := "Dummy parameter for no-parameter tools" |}.

(** Handler of [ListToolsRequestSchema]. *)
Definition listTools : M (list Tool.t) :=
  vehicles <- getVehicles false ;;
  if (length vehicles =? 0)%nat then ret []
  else ret [wake_up_tool; refresh_vehicles_tool; debug_vehicles_tool].

(** [String(request.params.arguments?.vehicle_id)] for an argument that is a
    string or absent. *)
Definition String_of_argument (a : option string) : string :=
  match a with
  | Some s => s
  | None => "undefined"
  end.

(** The predicate of [vehicles.find] in [wake_up]; [String] of a string is
    the string itself. *)
Definition matches (vehicleId : string) (v : Vehicle) : bool :=
  String.eqb (id v) vehicleId
  || String.eqb (String_of_Z (vehicle_id v)) vehicleId
  || String.eqb (vin v) vehicleId.

(** [case "wake_up"], once the vehicle is found: the [try] block around the
    remote wake call. *)
Definition wake_up_found (vehicleId : string) (vehicle : Vehicle) : M string :=
  try_catch
    (result <- TeslaService.wakeUp vehicleId ;;
     match result with
     | Some r =>
         ret ("Successfully woke up "
              ++ or_else (display_name vehicle) "your Tesla"
              ++ " (state: " ++ state r ++ ")")%string
     | None =>
         ret ("Failed to wake up "
              ++ or_else (display_name vehicle) "your Tesla")%string
     end)
    (fun error =>
       throw (Error (Cat "Failed to wake up vehicle: " (error_message error)))).

(** [case "wake_up"] *)
Definition wake_up (argument : option string) : M string :=
  let vehicleId := String_of_argument argument in
  if negb (truthy vehicleId) then
    throw (Error (Str "Vehicle ID is required"))
  else
    vehicles <- getVehicles false ;;
    match find (matches vehicleId) vehicles with
    | None => throw (Error (Cat "Vehicle " (Cat vehicleId (Str " not found"))))
    | Some vehicle => wake_up_found vehicleId vehicle
    end.

(** [case "refresh_vehicles"] *)
Definition refresh_vehicles : M string :=
  getVehicles true ;;;
  cached <- gets (fun w => vehiclesCache (cache w)) ;;
  ret ("Successfully refreshed the vehicle list. Found "
       ++ String_of_nat (length cached) ++ " vehicles.")%string.

(** One block of the debug text. *)
Definition debug_entry (v : Vehicle) : string :=
  "Vehicle: " ++ or_else (display_name v) "Tesla" ++ LF
  ++ "- id: " ++ id v ++ LF
  ++ "- vehicle_id: " ++ String_of_Z (vehicle_id v) ++ LF
  ++ "- vin: " ++ vin v ++ LF
  ++ "- state: " ++ state v.

(** The text of [debug_vehicles] for a given vehicle list. *)
Definition debug_text (vehicles : list Vehicle) : string :=
  if (length vehicles =? 0)%nat then
    "No vehicles found. Make sure your Tesla account is properly connected."
  else
    "Found " ++ String_of_nat (length vehicles) ++ " vehicles:" ++ LF ++ LF
    ++ String.concat (LF ++ LF) (map debug_entry vehicles).

(** [case "debug_vehicles"] *)
Definition debug_vehicles : M string :=
  vehicles <- getVehicles false ;;
  ret (debug_text vehicles).

(** Handler of [CallToolRequestSchema]: the text of the result's single
    content item. *)
Definition callTool (name : string) (argument : option string) : M string :=
  if String.eqb name "wake_up" then wake_up argument
  else if String.eqb name "refresh_vehicles" then refresh_vehicles
  else if String.eqb name "debug_vehicles" then debug_vehicles
  else throw (Error (Str "Unknown tool")).

(** The world at process start: fresh service, empty cache. *)
Definition initial_world (registered : bool) (r : Remote) : World :=
  {| svc := TeslaService.constructor registered;
     cache := initial_cache;
     remote := r |}.

(* ===================================================================== *)
(** ** Vocabulary of the statements *)
(* ===================================================================== *)

(** The end of [getAccessToken], after the refresh: return the held token or
    throw when there is none. *)
Definition return_token : M string :=
  token <- gets (fun w => accessToken (svc w)) ;;
  if falsy token then
    throw (Error (Str "Could not obtain access token"))
  else
    match token with
    | Some t => ret t
    | None => throw (Error (Str "Could not obtain access token"))
    end.

(** One of the three credentials is absent (or empty). *)
Definition credentials_absent (w : World) : bool :=
  falsy (TESLA_CLIENT_ID (env (remote w)))
  || falsy (TESLA_CLIENT_SECRET (env (remote w)))
  || falsy (TESLA_REFRESH_TOKEN (env (remote w))).

(** The next token request is rejected (network error, status outside 2xx,
    no answer) or resolves with a [null] body. *)
Definition token_call_fails (w : World) : bool :=
  match hd_error (auth_replies (remote w)) with
  | None => true
  | Some r =>
      match outcome r with
      | Resolved _ (Some _) => false
      | _ => true
      end
  end.

(** A test driver for the token manager: before each call the clock is moved
    by the given amount; each call is recorded with the world it returned
    in. *)
Fixpoint token_calls (ticks : list Z) (w : World)
  : list (Outcome string * World) :=
  match ticks with
  | [] => []
  | dt :: rest =>
      let r := TeslaService.getAccessToken (advance dt w) in
      r :: token_calls rest (snd r)
  end.

(** A call returned a token whose expiry instant is at or before the instant
    of return (the code's own expiry test, at the instant of return). *)
Definition expired_at_return (r : Outcome string * World) : bool :=
  match fst r with
  | Return _ =>
      num_ge (Num (clock (remote (snd r)))) (tokenExpiration (svc (snd r)))
  | Throw _ => false
  end.

(** A token reply that reports a validity duration of zero seconds or
    less. *)
Definition nonpositive_validity (r : Reply TokenData) : bool :=
  match outcome r with
  | Resolved _ (Some data) =>
      match expires_in data with
      | Some seconds => seconds <=? 0
      | None => false
      end
  | _ => false
  end.

(** No scripted token reply reports a validity duration of zero or less. *)
Definition positive_durations (w : World) : Prop :=
  Forall (fun r => nonpositive_validity r = false) (auth_replies (remote w)).

(** Classification of trace events. *)
Definition is_http (e : Event) : bool :=
  match e with
  | Http _ _ _ => true
  | _ => false
  end.

Definition is_list_call (e : Event) : bool :=
  match e with
  | CallGetVehicles => true
  | _ => false
  end.

(** Entries of [wakeUp] and requests to a wake endpoint (the only POST
    requests that do not go to the token endpoint). *)
Definition is_wake_event (e : Event) : bool :=
  match e with
  | CallWakeUp _ => true
  | Http POST url _ => negb (String.eqb url AUTH_URL)
  | _ => false
  end.

(** Number of invocations of the remote client's list operation so far. *)
Definition list_calls (w : World) : nat :=
  length (filter is_list_call (trace (remote w))).

Definition LIST_URL : string := BASE_URL ++ "/api/1/vehicles".

(** Requests to the list endpoint. *)
Definition is_list_request (e : Event) : bool :=
  match e with
  | Http GET url _ => String.eqb url LIST_URL
  | _ => false
  end.

(** Number of requests sent to the list endpoint so far. *)
Definition list_requests (w : World) : nat :=
  length (filter is_list_request (trace (remote w))).

(** The wake events so far. *)
Definition wake_events (w : World) : list Event :=
  filter is_wake_event (trace (remote w)).

(** The vehicles the next list request yields, when it resolves with a
    body. *)
Definition list_reply_vehicles (w : World) : option (list Vehicle) :=
  match hd_error (list_replies (remote w)) with
  | Some r =>
      match outcome r with
      | Resolved _ (Some data) =>
          Some (match vehicles_response data with
                | Some vehicles => vehicles
                | None => []
                end)
      | _ => None
      end
  | None => None
  end.

(** The one error [TeslaService.getVehicles] throws from its [catch]. *)
Definition FAILED_TO_FETCH : JsError := Error (Str "Failed to fetch vehicles").

(** The refresh condition in the specification's words: forced, or empty
    cache, or cache age above 60 seconds. *)
Definition must_refresh (forceRefresh : bool) (w : World) : Prop :=
  forceRefresh = true
  \/ vehiclesCache (cache w) = []
  \/ clock (remote w) - lastVehicleFetch (cache w) > 60000.

(** The vehicle the [wake_up] tool resolves a token to: the [find] over the
    result of its cache read. *)
Definition resolve (vehicleId : string) (w : World) : option Vehicle :=
  find (matches vehicleId) (vehiclesCache (cache (snd (getVehicles false w)))).

(** The requests the remote client may send while waking [vehicleId]: a
    token request, and a POST to the wake path of [vehicleId]. *)
Definition wake_request_of (vehicleId : string) (e : Event) : Prop :=
  e = Http POST AUTH_URL None
  \/ exists token, e = Http POST (TeslaService.wakeUpUrl vehicleId) (Some token).

(** The error of [wake_up] for a token that matches no vehicle. *)
Definition NOT_FOUND (vehicleId : string) : JsError :=
  Error (Cat "Vehicle " (Cat vehicleId (Str " not found"))).

(* --------------------------------------------------------------------- *)
(** *** Frames *)
(* --------------------------------------------------------------------- *)

(** What acquiring a token may change: the token fields, the clock, the
    token script, and at most one token request in the trace. *)
Record token_step (w w' : World) : Prop := {
  ts_cache : cache w' = cache w;
  ts_registered : isRegistered (svc w') = isRegistered (svc w);
  ts_env : env (remote w') = env (remote w);
  ts_list : list_replies (remote w') = list_replies (remote w);
  ts_wake : wake_replies (remote w') = wake_replies (remote w);
  ts_auth : auth_replies (remote w') = auth_replies (remote w)
            \/ auth_replies (remote w') = tl (auth_replies (remote w));
  ts_trace : trace (remote w') = trace (remote w)
             \/ trace (remote w') = trace (remote w) ++ [Http POST AUTH_URL None]
}.

(** What the list operation may change: never the cache; the trace grows by
    the operation's entry followed by HTTP requests, none of them a wake
    request. *)
Record list_step (w w' : World) : Prop := {
  ls_cache : cache w' = cache w;
  ls_trace : exists evs,
      trace (remote w') = trace (remote w) ++ CallGetVehicles :: evs
      /\ forallb is_http evs = true
      /\ forallb (fun e => negb (is_wake_event e)) evs = true
      /\ (length (filter is_list_request evs) <= 1)%nat
}.

(* --------------------------------------------------------------------- *)
(** *** Scenario data *)
(* --------------------------------------------------------------------- *)

Definition credentials : Env :=
  {| TESLA_CLIENT_ID := Some "client-id";
     TESLA_CLIENT_SECRET := Some "client-secret";
     TESLA_REFRESH_TOKEN := Some "refresh-token" |}.

(** A remote with the given clock and scripts, valid credentials and an
    empty trace. *)
Definition remote_at (now : Z)
    (auth : list (Reply TokenData))
    (vehicles : list (Reply VehiclesData))
    (wake : list (Reply WakeData)) : Remote :=
  {| clock := now; env := credentials;
     auth_replies := auth; list_replies := vehicles; wake_replies := wake;
     trace := [] |}.

(** A token reply with both fields. *)
Definition token_reply (latency : Z) (token : string) (seconds : Z)
  : Reply TokenData :=
  {| delay := latency;
     outcome := Resolved 200 (Some {| access_token := Some token;
                                      expires_in := Some seconds |}) |}.

(** A list reply carrying the given vehicles. *)
Definition vehicles_reply (latency : Z) (vehicles : list Vehicle)
  : Reply VehiclesData :=
  {| delay := latency;
     outcome := Resolved 200 (Some {| vehicles_response := Some vehicles |}) |}.

(** A service holding a token valid until the given instant. *)
Definition service_with_token (token : string) (expiry : Z) (registered : bool)
  : Service :=
  {| accessToken := Some token;
     tokenExpiration := Num expiry;
     isRegistered := registered |}.

Definition car : Vehicle :=
  {| id := "1"; vin := "5YJ3E1EA7JF000001"; display_name := "Car";
     state := "online"; vehicle_id := 12345 |}.

Definition unnamed_car : Vehicle :=
  {| id := "2"; vin := "VIN2"; display_name := "";
     state := "asleep"; vehicle_id := 67890 |}.

(** Token manager scenarios. *)

(** No token yet; the remote answers the refresh with a token valid for
    zero seconds. *)
Definition zero_validity_world : World :=
  {| svc := TeslaService.constructor true;
     cache := initial_cache;
     remote := remote_at 1000 [token_reply 0 "tok" 0] [] [] |}.

(** The held token expired one millisecond ago; the remote answers the
    refresh with a token valid for 3600 seconds. *)
Definition expiring_world : World :=
  {| svc := service_with_token "old" 999 true;
     cache := initial_cache;
     remote := remote_at 1000 [token_reply 5 "new" 3600] [] [] |}.

(** A token is held and the client secret is missing. *)
Definition missing_secret_world : World :=
  {| svc := service_with_token "old" 5000 true;
     cache := initial_cache;
     remote :=
       {| clock := 1000;
          env := {| TESLA_CLIENT_ID := Some "client-id";
                    TESLA_CLIENT_SECRET := None;
                    TESLA_REFRESH_TOKEN := Some "refresh-token" |};
          auth_replies := [token_reply 0 "new" 3600];
          list_replies := []; wake_replies := []; trace := [] |} |}.

(** A token is held; the remote answers the refresh with status 200 and a
    body that has neither [access_token] nor [expires_in]. *)
Definition malformed_reply_world : World :=
  {| svc := service_with_token "old" 5000 true;
     cache := initial_cache;
     remote :=
       remote_at 1000
         [{| delay := 0;
             outcome := Resolved 200 (Some {| access_token := None;
                                              expires_in := None |}) |}]
         [] [] |}.

(** Remote client scenarios. *)

(** The application is not registered; no token is held yet. *)
Definition unregistered_world : World :=
  {| svc := TeslaService.constructor false;
     cache := initial_cache;
     remote := remote_at 1000 [token_reply 0 "tok" 3600]
                 [vehicles_reply 0 [car]] [] |}.

(** Registered, with a valid token; the list endpoint answers with status
    500. *)
Definition http_500_world : World :=
  {| svc := service_with_token "tok" 3601000 true;
     cache := initial_cache;
     remote :=
       remote_at 1000 []
         [{| delay := 0;
             outcome := RejectedStatus "Request failed with status code 500"
                          {| err_status := 500;
                             err_data := Some "{'error':'internal'}" |} |}]
         [] |}.

(** Registered, with a valid token; the list endpoint answers with one
    vehicle. *)
Definition one_car_remote_world : World :=
  {| svc := service_with_token "tok" 3601000 true;
     cache := initial_cache;
     remote := remote_at 1000 [] [vehicles_reply 0 [car]] [] |}.

(** Cache scenarios: the cache was filled at instant 0 with the given
    vehicles and is read at the given instant; a valid token is held and the
    list and wake endpoints follow the given scripts. *)
Definition cached_world (cached : list Vehicle) (now : Z)
    (vehicles : list (Reply VehiclesData)) (wake : list (Reply WakeData))
  : World :=
  {| svc := service_with_token "tok" 3601000 true;
     cache := {| vehiclesCache := cached; lastVehicleFetch := 0 |};
     remote := remote_at now [] vehicles wake |}.

(** The cache holds [car]; the remote would now report [car] and
    [unnamed_car]. *)
Definition at_59_seconds : World :=
  cached_world [car] 59000 [vehicles_reply 0 [car; unnamed_car]] [].

Definition at_61_seconds : World :=
  cached_world [car] 61000 [vehicles_reply 0 [car; unnamed_car]] [].

(** The cache holds [car] and is stale; the list endpoint is unreachable. *)
Definition unreachable_world : World :=
  cached_world [car] 61000
    [{| delay := 0; outcome := RejectedNetwork "timeout" |}] [].

(** Process start with no reachable remote: empty cache, no token, every
    request fails. *)
Definition offline_world : World :=
  initial_world true (remote_at 0 [] [] []).

(** The cache holds only a vehicle without a display name, and is fresh. *)
Definition unnamed_cached_world : World :=
  cached_world [unnamed_car] 59000 [] [].

(** The cache holds [car] and is fresh; the wake endpoint answers with the
    vehicle. *)
Definition wake_world : World :=
  cached_world [car] 59000 []
    [{| delay := 0;
        outcome := Resolved 200 (Some {| wake_response := Some car |}) |}].

(** Process start with valid credentials: the first list request finds no
    vehicle, the second finds one. *)
Definition starting_world : World :=
  initial_world true
    (remote_at 0 [token_reply 0 "tok" 3600]
       [vehicles_reply 0 [];
        vehicles_reply 0 [{| id := "1"; vin := "VIN1"; display_name := "Car";
                             state := "online"; vehicle_id := 12345 |}]]
       []).

(* ===================================================================== *)
(** ** The remaining handlers of the server module *)
(* ===================================================================== *)

Module Contents.

(** One item of a [ReadResource] result, also the resource embedded in a
    prompt message. *)
Record t : Type := {
  uri : string;
  mimeType : string;
  text : string
}.

End Contents.

(** The content of a prompt message: a text or an embedded resource. *)
Inductive PromptContent : Type :=
| TextContent (text : string)
| EmbeddedResource (resource : Contents.t).

Record PromptMessage : Type := {
  role : string;
  content : PromptContent
}.

Module Prompt.

Record t : Type := {
  name : string;
  description : string
}.

End Prompt.

(** Handler of [ListPromptsRequestSchema]. *)
Definition listPrompts : M (list Prompt.t) :=
  ret [{| Prompt.name := "summarize_vehicles";
          Prompt.description := "Get information about your Tesla vehicles" |}].

Definition NO_VEHICLES_PROMPT : string :=
  "I don't have any Tesla vehicles connected. Please make sure you've set up your Tesla API credentials correctly in the .env file.".

Definition PROMPT_INTRODUCTION : string :=
  "Here is the information about my Tesla vehicles:".

Definition PROMPT_REQUEST : string :=
  "Please provide a summary of all my Tesla vehicles including their names, battery levels, and current state (online/offline/asleep).".

Definition user_message (c : PromptContent) : PromptMessage :=
  {| role := "user"; content := c |}.

Section Builtins.

(** Two builtins of the runtime are parameters: [new URL(uri).hostname],
    [None] when the constructor throws, and
    [JSON.stringify(vehicle, null, 2)]. *)
Variable URL_hostname : string -> option string.
Variable JSON_stringify_vehicle : Vehicle -> string.

(** Handler of [ReadResourceRequestSchema].  The comparison [v.id ===
    vehicleId] is on strings, the type the interface declares for [id]; an
    id that arrives as a JSON number never equals the host, which this model
    of [Vehicle] does not represent. *)
Definition readResource (uri : string) : M (list Contents.t) :=
  match URL_hostname uri with
  | None => throw (TypeError "Invalid URL")
  | Some vehicleId =>
      vehicles <- getVehicles false ;;
      match find (fun v => String.eqb (id v) vehicleId) vehicles with
      | None =>
          throw (Error (Cat "Vehicle " (Cat vehicleId (Str " not found"))))
      | Some vehicle =>
          ret [{| Contents.uri := uri;
                  Contents.mimeType := "application/json";
                  Contents.text := JSON_stringify_vehicle vehicle |}]
      end
  end.

(** The resource a prompt embeds for one vehicle. *)
Definition embedded_vehicle (vehicle : Vehicle) : Contents.t :=
  {| Contents.uri := "tesla://" ++ id vehicle;
     Contents.mimeType := "application/json";
     Contents.text := JSON_stringify_vehicle vehicle |}.

(** Handler of [GetPromptRequestSchema]. *)
Definition getPrompt (name : string) : M (list PromptMessage) :=
  if negb (String.eqb name "summarize_vehicles") then
    throw (Error (Str "Unknown prompt"))
  else
    vehicles <- getVehicles false ;;
    if (length vehicles =? 0)%nat then
      ret [user_message (TextContent NO_VEHICLES_PROMPT)]
    else
      ret ([user_message (TextContent PROMPT_INTRODUCTION)]
           ++ map (fun v => user_message (EmbeddedResource (embedded_vehicle v)))
                  vehicles
           ++ [user_message (TextContent PROMPT_REQUEST)]).

(** The requests of the protocol and what the handlers answer. *)
Inductive Request : Type :=
| ListResources
| ReadResource (uri : string)
| ListTools
| CallTool (name : string) (vehicle_id : option string)
| ListPrompts
| GetPrompt (name : string).

Inductive Response : Type :=
| ResourcesResult (resources : list Resource.t)
| ContentsResult (contents : list Contents.t)
| ToolsResult (tools : list Tool.t)
| ToolResult (text : string)
| PromptsResult (prompts : list Prompt.t)
| MessagesResult (messages : list PromptMessage).

(** The handler registered for each request. *)
Definition handle (request : Request) : M Response :=
  match request with
  | ListResources => r <- listResources ;; ret (ResourcesResult r)
  | ReadResource uri => r <- readResource uri ;; ret (ContentsResult r)
  | ListTools => r <- listTools ;; ret (ToolsResult r)
  | CallTool name argument => r <- callTool name argument ;; ret (ToolResult r)
  | ListPrompts => r <- listPrompts ;; ret (PromptsResult r)
  | GetPrompt name => r <- getPrompt name ;; ret (MessagesResult r)
  end.

(** The server handles the requests in arrival order; an exception of a
    handler becomes an error response and the process goes on with the state
    the handler left.  Before each request the clock moves by the given
    amount. *)
Fixpoint serve (requests : list (Z * Request)) (w : World) : World :=
  match requests with
  | [] => w
  | (dt, request) :: rest => serve rest (snd (handle request (advance dt w)))
  end.

End Builtins.

(** The preload of [main]: [try { await getVehicles() } catch { ... }],
    before the transport is connected. *)
Definition preload : M unit :=
  try_catch (getVehicles false ;;; ret tt) (fun _ => ret tt).

(** A request that is a call of the [wake_up] tool. *)
Definition is_wake_up_call (dr : Z * Request) : bool :=
  match snd dr with
  | CallTool name _ => String.eqb name "wake_up"
  | _ => false
  end.

(** [p] is a prefix of [t]. *)
Definition trace_prefix (p t : list Event) : Prop := exists evs, t = p ++ evs.

(* --------------------------------------------------------------------- *)
(** *** Vocabulary of the further statements *)
(* --------------------------------------------------------------------- *)

(** The first credential, in the order [authorize] checks them, that is
    absent or empty. *)
Definition first_missing_credential (e : Env) : option string :=
  if falsy (TESLA_CLIENT_ID e) then Some "TESLA_CLIENT_ID"
  else if falsy (TESLA_CLIENT_SECRET e) then Some "TESLA_CLIENT_SECRET"
  else if falsy (TESLA_REFRESH_TOKEN e) then Some "TESLA_REFRESH_TOKEN"
  else None.

(** The error [authorize] throws for a missing credential. *)
Definition MISSING_CREDENTIAL (name : string) : JsError :=
  Error (Cat "Failed to authorize with Tesla API: "
           (JSON_stringify_string
              (Str (name ++ " is not set in environment variables")))).

(** The world when a public operation of the service has just been
    entered. *)
Definition entered (e : Event) (w : World) : World := snd (emit e w).

(** What awaiting the next wake request yields. *)
Definition wake_reply_outcome (w : World) : Outcome (option Vehicle) :=
  match hd_error (wake_replies (remote w)) with
  | None => Throw (AxiosError "Network Error" None)
  | Some r =>
      match outcome r with
      | Resolved _ (Some data) => Return (wake_response data)
      | Resolved _ None =>
          Throw (TypeError "Cannot read properties of null (reading 'response')")
      | RejectedStatus m resp => Throw (AxiosError m (Some resp))
      | RejectedNetwork m => Throw (AxiosError m None)
      end
  end.

(** The error the service's [wakeUp] throws from its [catch]. *)
Definition WAKE_FAILED (e : JsError) : JsError :=
  Error (Cat "Failed to wake up vehicle: " (error_message e)).

(** What no operation changes: the registration flag and the credentials;
    the trace only grows. *)
Record config_step (w w' : World) : Prop := {
  cs_registered : isRegistered (svc w') = isRegistered (svc w);
  cs_env : env (remote w') = env (remote w);
  cs_trace : trace_prefix (trace (remote w)) (trace (remote w'))
}.

(** A token is held and its reply carried no validity duration. *)
Definition token_without_duration (latency : Z) (token : string)
  : Reply TokenData :=
  {| delay := latency;
     outcome := Resolved 200 (Some {| access_token := Some token;
                                      expires_in := None |}) |}.

(** No token yet; the remote answers the refresh with a token but no
    validity duration. *)
Definition no_duration_world : World :=
  {| svc := TeslaService.constructor true;
     cache := initial_cache;
     remote := remote_at 1000 [token_without_duration 0 "tok"] [] [] |}.

(** The held token has expired and the refresh is answered without an
    access token. *)
Definition no_token_reply_world : World :=
  {| svc := service_with_token "old" 999 true;
     cache := initial_cache;
     remote :=
       remote_at 1000
         [{| delay := 0;
             outcome := Resolved 200 (Some {| access_token := None;
                                              expires_in := Some 3600 |}) |}]
         [] [] |}.

(** The held token has expired and the token endpoint is unreachable; the
    list endpoint would answer. *)
Definition auth_down_world : World :=
  {| svc := service_with_token "old" 999 true;
     cache := initial_cache;
     remote :=
       remote_at 1000
         [{| delay := 3; outcome := RejectedNetwork "timeout" |}]
         [vehicles_reply 0 [car]] [] |}.

(** The cache holds [car] and is fresh, a valid token is held, but the
    application is not registered. *)
Definition unregistered_wake_world : World :=
  {| svc := service_with_token "tok" 3601000 false;
     cache := {| vehiclesCache := [car]; lastVehicleFetch := 0 |};
     remote := remote_at 59000 [] []
                 [{| delay := 0;
                     outcome := Resolved 200
                                  (Some {| wake_response := Some car |}) |}] |}.

(** The cache holds the sleeping [unnamed_car] and is fresh; the wake
    endpoint reports it online. *)
Definition sleeping_world : World :=
  cached_world [unnamed_car] 59000 []
    [{| delay := 0;
        outcome := Resolved 200
                     (Some {| wake_response :=
                                Some {| id := "2"; vin := "VIN2";
                                        display_name := "";
                                        state := "online";
                                        vehicle_id := 67890 |} |}) |}].

(** Process start: the first list request finds no vehicle, the second finds
    [car]. *)
Definition empty_account_world : World :=
  initial_world true
    (remote_at 1000 [token_reply 0 "tok" 3600]
       [vehicles_reply 0 []; vehicles_reply 0 [car]] []).

(** Process start: the list request takes 61 seconds to answer with
    [car]. *)
Definition slow_remote_world : World :=
  initial_world true
    (remote_at 1000 [token_reply 0 "tok" 3600]
       [vehicles_reply 61000 [car]; vehicles_reply 0 [car; unnamed_car]] []).

(** Stand-ins for the two builtins, for the scenarios: the host of a
    "tesla://" uri is what follows the scheme, and the JSON text of a vehicle
    is abridged to its VIN. *)
Definition host_after_scheme (uri : string) : option string :=
  if String.prefix "tesla://" uri
  then Some (String.substring 8 (String.length uri - 8) uri)
  else None.

Definition vin_as_json (v : Vehicle) : string := vin v.

(** A session without any [wake_up] call: listings, a read, a forced
    refresh, the debug tool and the prompt, one minute apart. *)
Definition browsing_session : list (Z * Request) :=
  [(0, ListTools); (61000, ListResources); (61000, ReadResource "tesla://1");
   (0, CallTool "refresh_vehicles" None); (61000, CallTool "debug_vehicles" None);
   (0, GetPrompt "summarize_vehicles"); (0, ListPrompts);
   (0, CallTool "honk" None)].

(** The state a handler leaves when all it does is read the cache. *)
Definition reads_only (w w' : World) : Prop :=
  w' = w \/ exists forceRefresh, w' = snd (getVehicles forceRefresh w).

(** A request is authorized when it goes to the token endpoint, which needs
    no bearer, or carries a non-empty bearer token. *)
Definition authorized (e : Event) : bool :=
  match e with
  | Http _ url bearer =>
      String.eqb url AUTH_URL
      || match bearer with
         | Some token => truthy token
         | None => false
         end
  | _ => true
  end.

(** From [w] to [w'] the trace grew by authorized requests and entries
    only. *)
Definition sends_authorized (w w' : World) : Prop :=
  exists evs,
    trace (remote w') = trace (remote w) ++ evs
    /\ forallb authorized evs = true.

(* ===================================================================== *)
(** ** Saving the refresh token (the token utility's [.env] update) *)
(* ===================================================================== *)

Module EnvFile.

(** A JavaScript string: its sequence of UTF-16 code units. *)
Definition text : Type := list N.

Definition of_string (s : string) : text :=
  map N_of_ascii (list_ascii_of_string s).

(** ['TESLA_REFRESH_TOKEN='] *)
Definition KEY : text := of_string "TESLA_REFRESH_TOKEN=".

Definition NEWLINE : N := 10.
Definition DOLLAR : N := 36.

(** [hay] starts with [needle]. *)
Fixpoint starts_with (needle hay : text) : bool :=
  match needle, hay with
  | [], _ => true
  | _ :: _, [] => false
  | n :: needle', h :: hay' => (n =? h)%N && starts_with needle' hay'
  end.

(** The leftmost occurrence of [needle] in [hay]: what precedes it and what
    follows it.  [hay.includes(needle)] is whether there is one; a regular
    expression that begins with the literal [needle] matches there. *)
Fixpoint split_first (needle hay : text) : option (text * text) :=
  if starts_with needle hay then Some ([], skipn (length needle) hay)
  else
    match hay with
    | [] => None
    | h :: hay' =>
        match split_first needle hay' with
        | Some (before, after) => Some (h :: before, after)
        | None => None
        end
    end.

(** The code units [.] does not match: LF, CR, U+2028, U+2029. *)
Definition is_line_terminator (u : N) : bool :=
  ((u =? 10) || (u =? 13) || (u =? 8232) || (u =? 8233))%N.

(** What [.*] takes, greedily, and what it leaves. *)
Fixpoint span_line (s : text) : text * text :=
  match s with
  | [] => ([], [])
  | u :: rest =>
      if is_line_terminator u then ([], s)
      else let (line, after) := span_line rest in (u :: line, after)
  end.

(** The replacement text of [String.prototype.replace] for a pattern
    without capture groups: in the template, "$$" stands for "$", "$&" for
    the match, "$`" for what precedes it, "$'" for what follows it; any other
    "$" is literal. *)
Fixpoint GetSubstitution (matched before after template : text) : text :=
  match template with
  | [] => []
  | u :: t =>
      if (u =? 36)%N then
        match t with
        | [] => [u]
        | c :: rest =>
            if (c =? 36)%N then
              36%N :: GetSubstitution matched before after rest
            else if (c =? 38)%N then
              matched ++ GetSubstitution matched before after rest
            else if (c =? 96)%N then
              before ++ GetSubstitution matched before after rest
            else if (c =? 39)%N then
              after ++ GetSubstitution matched before after rest
            else u :: GetSubstitution matched before after t
        end
      else u :: GetSubstitution matched before after t
  end.

(** The new content of the [.env] file:
    [if (envContent.includes('TESLA_REFRESH_TOKEN='))
       envContent.replace(/TESLA_REFRESH_TOKEN=.*/, `TESLA_REFRESH_TOKEN=${refresh_token}`)
     else envContent + `\nTESLA_REFRESH_TOKEN=${refresh_token}\n`]. *)
Definition update (envContent refresh_token : text) : text :=
  match split_first KEY envContent with
  | Some (before, rest) =>
      let (line, after) := span_line rest in
      before
      ++ GetSubstitution (KEY ++ line) before after (KEY ++ refresh_token)
      ++ after
  | None =>
      envContent ++ [NEWLINE] ++ KEY ++ refresh_token ++ [NEWLINE]
  end.

(** [needle] occurs in [hay]. *)
Definition occurs (needle hay : text) : Prop :=
  exists before after, hay = before ++ needle ++ after.

(** A text that is empty or begins with a line terminator. *)
Definition at_line_end (s : text) : Prop :=
  s = [] \/ exists u rest, s = u :: rest /\ is_line_terminator u = true.

End EnvFile.

(** A [.env] file with the token on its second line, and one without. *)
Definition env_with_token : EnvFile.text :=
  EnvFile.of_string
    ("TESLA_CLIENT_ID=abc" ++ LF ++ "TESLA_REFRESH_TOKEN=old" ++ LF
     ++ "TESLA_CLIENT_SECRET=xyz" ++ LF).

Definition env_without_token : EnvFile.text :=
  EnvFile.of_string ("TESLA_CLIENT_ID=abc" ++ LF ++ "TESLA_CLIENT_SECRET=xyz").

(** The cache holds [car] and is stale, and the held token has expired; the
    token and list endpoints answer. *)
Definition expired_token_stale_world : World :=
  {| svc := service_with_token "old" 60000 true;
     cache := {| vehiclesCache := [car]; lastVehicleFetch := 0 |};
     remote := remote_at 61000 [token_reply 0 "new" 3600]
                 [vehicles_reply 0 [car; unnamed_car]] [] |}.

(* ===================================================================== *)
(** ** Proof tools *)
(* ===================================================================== *)

Ltac unfold_monad :=
  unfold Date_now, emit, settle, next_auth_reply, next_list_reply,
    next_wake_reply, try_catch, bind, ret, throw, gets, modify.

(** Expose every field of a world. *)
Ltac destruct_world w :=
  let tok := fresh "tok" in let exp := fresh "exp" in let reg := fresh "reg" in
  let vc := fresh "vc" in let lf := fresh "lf" in
  let clk := fresh "clk" in let cid := fresh "cid" in let sec := fresh "sec" in
  let rt := fresh "rt" in let ar := fresh "ar" in let lr := fresh "lr" in
  let wr := fresh "wr" in let tr := fresh "tr" in
  destruct w as [[tok exp reg] [vc lf] [clk [cid sec rt] ar lr wr tr]].

(** The cases of the head of a reply queue: exhausted, resolved with or
    without a body, rejected with a status, rejected by the network. *)
Ltac destruct_reply l :=
  let d := fresh "d" in let st := fresh "st" in let data := fresh "data" in
  let m := fresh "m" in let resp := fresh "resp" in
  destruct l as [|[d [st [data|]|m resp|m]] l].

(* ===================================================================== *)
(** ** Token manager *)
(* ===================================================================== *)

Lemma token_step_refl (w : World) : token_step w w.
Proof. constructor; auto. Qed.

Lemma authorize_step (w : World) :
  token_step w (snd (TeslaService.authorize w)).
Proof.
  unfold TeslaService.authorize, TeslaService.post_token. unfold_monad.
  destruct_world w. cbn.
  destruct (falsy cid); cbn; [apply token_step_refl|].
  destruct (falsy sec); cbn; [apply token_step_refl|].
  destruct (falsy rt); cbn; [apply token_step_refl|].
  destruct_reply ar; cbn; constructor; cbn; auto.
Qed.

(** [authorize] succeeds exactly when the credentials are present and the
    token request resolves with a body. *)
Lemma authorize_outcome (w : World) :
  fst (TeslaService.authorize w) = Return tt
  <-> credentials_absent w = false /\ token_call_fails w = false.
Proof.
  unfold credentials_absent, token_call_fails, TeslaService.authorize,
    TeslaService.post_token.
  unfold_monad. destruct_world w. cbn.
  destruct (falsy cid); cbn; [intuition discriminate|].
  destruct (falsy sec); cbn; [intuition discriminate|].
  destruct (falsy rt); cbn; [intuition discriminate|].
  destruct_reply ar; cbn; intuition discriminate.
Qed.

(** A resolved token request stores the reply's token and the expiry
    computed at the instant the reply arrived. *)
Lemma authorize_resolved (w : World) (dl st : Z) (data : TokenData)
    (rest : list (Reply TokenData)) :
  credentials_absent w = false ->
  auth_replies (remote w)
  = {| delay := dl; outcome := Resolved st (Some data) |} :: rest ->
  fst (TeslaService.authorize w) = Return tt
  /\ accessToken (svc (snd (TeslaService.authorize w))) = access_token data
  /\ clock (remote (snd (TeslaService.authorize w))) = clock (remote w) + dl
  /\ tokenExpiration (svc (snd (TeslaService.authorize w)))
     = num_add (Num (clock (remote w) + dl))
               (num_mul (to_num (expires_in data)) (Num 1000)).
Proof.
  unfold credentials_absent, TeslaService.authorize, TeslaService.post_token.
  unfold_monad. destruct_world w. cbn. intros Hc Hr. subst ar.
  destruct (falsy cid); [discriminate|].
  destruct (falsy sec); [discriminate|].
  destruct (falsy rt); [discriminate|]. cbn. auto.
Qed.

(** Missing credentials and a failing token request make [authorize] throw
    its own error, with the service's fields as they were. *)
Lemma authorize_failure (w : World) :
  credentials_absent w = true \/ token_call_fails w = true ->
  (exists m, fst (TeslaService.authorize w)
             = Throw (Error (Cat "Failed to authorize with Tesla API: " m)))
  /\ svc (snd (TeslaService.authorize w)) = svc w.
Proof.
  unfold credentials_absent, token_call_fails, TeslaService.authorize,
    TeslaService.post_token.
  unfold_monad. destruct_world w. cbn.
  destruct (falsy cid); cbn; [eauto|].
  destruct (falsy sec); cbn; [eauto|].
  destruct (falsy rt); cbn; [eauto|].
  destruct_reply ar; cbn; eauto.
  intros [H|H]; discriminate.
Qed.

(** Whenever [authorize] throws, the service's fields are as they were. *)
Lemma authorize_throw_keeps_service (w : World) (e : JsError) :
  fst (TeslaService.authorize w) = Throw e ->
  svc (snd (TeslaService.authorize w)) = svc w.
Proof.
  intros H.
  destruct (credentials_absent w) eqn:Hc;
    [apply authorize_failure; left; exact Hc|].
  destruct (token_call_fails w) eqn:Hf;
    [apply authorize_failure; right; exact Hf|].
  assert (R : fst (TeslaService.authorize w) = Return tt)
    by (apply authorize_outcome; auto).
  rewrite R in H. discriminate H.
Qed.

(** C4, as amended.  [authorize] fails with an error whose message starts
    with "Failed to authorize with Tesla API: " when the client identifier,
    the client secret or the refresh token is absent, or when the token
    request is rejected (network error, status outside 2xx, no answer) or
    resolves with a null body; in each of these cases the held access token
    and its expiry instant (all the service's fields) are left untouched. *)
Theorem authorize_failure_keeps_token (w : World)
    (H : credentials_absent w = true \/ token_call_fails w = true) :
  (exists m, fst (TeslaService.authorize w)
             = Throw (Error (Cat "Failed to authorize with Tesla API: " m)))
  /\ svc (snd (TeslaService.authorize w)) = svc w.
Proof. exact (authorize_failure w H). Qed.

(** The missing client secret makes [authorize] fail and the held token
    stays. *)
Lemma authorize_failure_keeps_token_witness :
  (credentials_absent missing_secret_world = true
   \/ token_call_fails missing_secret_world = true)
  /\ (exists m, fst (TeslaService.authorize missing_secret_world)
                = Throw (Error (Cat "Failed to authorize with Tesla API: " m)))
  /\ svc (snd (TeslaService.authorize missing_secret_world))
     = svc missing_secret_world.
Proof.
  split; [left; reflexivity|].
  apply (authorize_failure_keeps_token missing_secret_world).
  left; reflexivity.
Defined.

(** C4 as stated fails: on a 2xx reply that lacks [access_token] and
    [expires_in], [authorize] does not fail, and it overwrites the held token
    "old" (expiry 5000) with [undefined] and [NaN]. *)
Lemma authorize_malformed_counterexample :
  accessToken (svc malformed_reply_world) = Some "old"
  /\ tokenExpiration (svc malformed_reply_world) = Num 5000
  /\ fst (TeslaService.authorize malformed_reply_world) = Return tt
  /\ accessToken (svc (snd (TeslaService.authorize malformed_reply_world))) = None
  /\ tokenExpiration (svc (snd (TeslaService.authorize malformed_reply_world))) = NaN.
Proof. repeat split. Qed.

Lemma return_token_world (w : World) : snd (return_token w) = w.
Proof.
  unfold return_token. unfold_monad. cbn.
  destruct (accessToken (svc w)) as [t|]; cbn;
    [destruct (negb (truthy t))|]; reflexivity.
Qed.

Lemma return_token_outcome (w : World) (t : string) :
  fst (return_token w) = Return t -> accessToken (svc w) = Some t.
Proof.
  unfold return_token. unfold_monad. cbn.
  destruct (accessToken (svc w)) as [t'|]; cbn; [|discriminate].
  destruct (negb (truthy t')); cbn; congruence.
Qed.

(** A refresh is performed first whenever no token is held or the held
    token's expiry instant is at or before the current instant. *)
Lemma getAccessToken_refresh (w : World) :
  TeslaService.token_needs_refresh w = true ->
  TeslaService.getAccessToken w
  = bind TeslaService.authorize (fun _ => return_token) w.
Proof.
  intros H. unfold TeslaService.getAccessToken, return_token. unfold_monad.
  rewrite H. reflexivity.
Qed.

(** Otherwise the held token is returned and nothing changes. *)
Lemma getAccessToken_held (w : World) :
  TeslaService.token_needs_refresh w = false ->
  TeslaService.getAccessToken w = return_token w.
Proof.
  intros H. unfold TeslaService.getAccessToken, return_token. unfold_monad.
  rewrite H. reflexivity.
Qed.

Lemma getAccessToken_step (w : World) :
  token_step w (snd (TeslaService.getAccessToken w)).
Proof.
  destruct (TeslaService.token_needs_refresh w) eqn:E.
  - rewrite getAccessToken_refresh by assumption. unfold bind.
    pose proof (authorize_step w) as S.
    destruct (TeslaService.authorize w) as [[[]|e] w1]; cbn [fst snd] in *;
      [|exact S].
    rewrite return_token_world. exact S.
  - rewrite getAccessToken_held by assumption. rewrite return_token_world.
    apply token_step_refl.
Qed.

(** The token a call returns is the token held when it returns. *)
Lemma getAccessToken_returns_held (w : World) (t : string) :
  fst (TeslaService.getAccessToken w) = Return t ->
  accessToken (svc (snd (TeslaService.getAccessToken w))) = Some t.
Proof.
  destruct (TeslaService.token_needs_refresh w) eqn:E.
  - rewrite getAccessToken_refresh by assumption. unfold bind.
    destruct (TeslaService.authorize w) as [[[]|e] w1]; cbn [fst snd];
      [|discriminate].
    rewrite return_token_world. apply return_token_outcome.
  - rewrite getAccessToken_held by assumption. rewrite return_token_world.
    apply return_token_outcome.
Qed.

(** A token that is returned is held and is not empty. *)
Lemma return_token_truthy (w : World) (t : string) :
  fst (return_token w) = Return t ->
  accessToken (svc w) = Some t /\ falsy (Some t) = false.
Proof.
  unfold return_token. unfold_monad. cbn.
  destruct (accessToken (svc w)) as [t'|]; cbn; [|discriminate].
  destruct (negb (truthy t')) eqn:E; cbn; [discriminate|].
  intros H; injection H as <-. auto.
Qed.

Lemma return_token_held (w : World) (t : string) :
  accessToken (svc w) = Some t -> falsy (Some t) = false ->
  return_token w = (Return t, w).
Proof.
  intros Ht Hf. unfold return_token. unfold_monad. cbn. rewrite Ht.
  cbn in *. rewrite Hf. reflexivity.
Qed.

Lemma getAccessToken_returns_truthy (w : World) (t : string) :
  fst (TeslaService.getAccessToken w) = Return t ->
  accessToken (svc (snd (TeslaService.getAccessToken w))) = Some t
  /\ falsy (Some t) = false.
Proof.
  destruct (TeslaService.token_needs_refresh w) eqn:E.
  - rewrite getAccessToken_refresh by assumption. unfold bind.
    destruct (TeslaService.authorize w) as [[[]|e] w1]; cbn [fst snd];
      [|discriminate].
    rewrite return_token_world. apply return_token_truthy.
  - rewrite getAccessToken_held by assumption. rewrite return_token_world.
    apply return_token_truthy.
Qed.

(** A held, non-empty token whose expiry the clock has not reached is
    returned as it is, and nothing changes. *)
Lemma getAccessToken_serves_held (w : World) (t : string) :
  accessToken (svc w) = Some t -> falsy (Some t) = false ->
  num_ge (Num (clock (remote w))) (tokenExpiration (svc w)) = false ->
  TeslaService.getAccessToken w = (Return t, w).
Proof.
  intros Ht Hf Hexp. rewrite getAccessToken_held.
  - apply return_token_held; assumption.
  - unfold TeslaService.token_needs_refresh. rewrite Ht, Hf, Hexp. reflexivity.
Qed.

(** One call: the returned token is not expired at the instant of return. *)
Lemma getAccessToken_unexpired (w : World) :
  positive_durations w ->
  expired_at_return (TeslaService.getAccessToken w) = false.
Proof.
  intros Hpos. unfold expired_at_return.
  destruct (TeslaService.token_needs_refresh w) eqn:E.
  - rewrite getAccessToken_refresh by assumption. unfold bind.
    destruct (credentials_absent w) eqn:Hc.
    { destruct (authorize_failure w (or_introl Hc)) as [[m Hm] _].
      destruct (TeslaService.authorize w) as [o w1]; cbn in Hm; subst o.
      reflexivity. }
    destruct (token_call_fails w) eqn:Hf.
    { destruct (authorize_failure w (or_intror Hf)) as [[m Hm] _].
      destruct (TeslaService.authorize w) as [o w1]; cbn in Hm; subst o.
      reflexivity. }
    unfold token_call_fails in Hf. unfold positive_durations in Hpos.
    destruct (auth_replies (remote w))
      as [|[dl [st [data|]|m resp|m]] rest] eqn:Hr;
      cbn in Hf; try discriminate.
    destruct (authorize_resolved w dl st data rest Hc Hr)
      as (Ho & _ & Hclk & Hexp).
    destruct (TeslaService.authorize w) as [o w1]; cbn [fst snd] in *. subst o.
    rewrite return_token_world.
    destruct (fst (return_token w1)); [|reflexivity].
    rewrite Hclk, Hexp. inversion Hpos as [|? ? Hhd _]; subst.
    unfold nonpositive_validity in Hhd; cbn in Hhd.
    destruct (expires_in data) as [n|]; cbn; [|reflexivity].
    apply Z.leb_gt in Hhd. rewrite Z.geb_leb. apply Z.leb_gt. lia.
  - rewrite getAccessToken_held by assumption. rewrite return_token_world.
    destruct (fst (return_token w)); [|reflexivity].
    unfold TeslaService.token_needs_refresh in E.
    apply orb_false_iff in E. apply E.
Qed.

Lemma getAccessToken_positive (w : World) :
  positive_durations w ->
  positive_durations (snd (TeslaService.getAccessToken w)).
Proof.
  unfold positive_durations. intros H.
  destruct (ts_auth _ _ (getAccessToken_step w)) as [E|E]; rewrite E;
    [exact H|].
  destruct (auth_replies (remote w)); [exact H|]. inversion H; assumption.
Qed.

Lemma token_calls_unexpired (ticks : list Z) (w : World) :
  positive_durations w ->
  Forall (fun r => expired_at_return r = false) (token_calls ticks w).
Proof.
  revert w. induction ticks as [|dt ticks IH]; intros w H; cbn.
  - constructor.
  - constructor.
    + apply getAccessToken_unexpired. exact H.
    + apply IH, getAccessToken_positive. exact H.
Qed.

(** C1, as amended.  For every sequence of [getAccessToken] calls under any
    synthetic clock, provided the remote never reports a validity duration of
    zero seconds or less, no call returns a token whose expiry instant is at
    or before the instant of return; and in every world a call refreshes
    first (runs [authorize], then returns the token then held) whenever no
    token is held or the held token's expiry instant is at or before the
    current instant.  A reply without a duration leaves the expiry [NaN],
    which the code's test never finds reached. *)
Theorem token_unexpired_at_return (ticks : list Z) (w : World)
    (H : positive_durations w) :
  Forall (fun r => expired_at_return r = false) (token_calls ticks w)
  /\ (forall w0,
        falsy (accessToken (svc w0)) = true
        \/ num_ge (Num (clock (remote w0))) (tokenExpiration (svc w0)) = true ->
        TeslaService.getAccessToken w0
        = bind TeslaService.authorize (fun _ => return_token) w0).
Proof.
  split.
  - apply token_calls_unexpired. exact H.
  - intros w0 Hstale. apply getAccessToken_refresh.
    unfold TeslaService.token_needs_refresh. apply orb_true_iff. exact Hstale.
Qed.

(** The expired token is refreshed by the first call and served again by the
    second; neither call returns an expired token. *)
Lemma token_unexpired_at_return_witness :
  positive_durations expiring_world
  /\ Forall (fun r => expired_at_return r = false)
            (token_calls [0; 0] expiring_world).
Proof.
  split.
  - repeat constructor.
  - apply (proj1 (token_unexpired_at_return [0; 0] expiring_world
                    ltac:(repeat constructor))).
Defined.

(** The scenario of the expired token: the first call sends exactly one token
    request and returns the new token, the second call returns the same token
    without a request. *)
Example refresh_then_reuse :
  map fst (token_calls [0; 0] expiring_world) = [Return "new"; Return "new"]
  /\ map (fun r => trace (remote (snd r))) (token_calls [0; 0] expiring_world)
     = [[Http POST AUTH_URL None]; [Http POST AUTH_URL None]].
Proof. split; reflexivity. Qed.

(** C1 as stated fails: when the remote reports a validity of zero seconds,
    the call returns the token "tok" at instant 1000 with expiry instant
    1000. *)
Lemma token_expired_at_return_counterexample :
  fst (TeslaService.getAccessToken zero_validity_world) = Return "tok"
  /\ clock (remote (snd (TeslaService.getAccessToken zero_validity_world))) = 1000
  /\ tokenExpiration (svc (snd (TeslaService.getAccessToken zero_validity_world)))
     = Num 1000
  /\ ~ Forall (fun r => expired_at_return r = false)
         (token_calls [0] zero_validity_world).
Proof.
  repeat split.
  intros H. inversion H as [|? ? Hhd _]. discriminate Hhd.
Qed.

(* ===================================================================== *)
(** ** Remote vehicle client: the list operation *)
(* ===================================================================== *)

Lemma get_vehicles_effect (token : string) (w : World) :
  trace (remote (snd (TeslaService.get_vehicles token w)))
  = trace (remote w) ++ [Http GET LIST_URL (Some token)]
  /\ cache (snd (TeslaService.get_vehicles token w)) = cache w
  /\ svc (snd (TeslaService.get_vehicles token w)) = svc w.
Proof.
  unfold TeslaService.get_vehicles. unfold_monad. destruct_world w. cbn.
  destruct_reply lr; cbn; auto.
Qed.

(** [TeslaService.getVehicles] in closed form: the token is obtained first,
    then the registration is checked, then the list request is sent. *)
Lemma service_getVehicles_unfold (w : World) :
  TeslaService.getVehicles w =
  match TeslaService.getAccessToken (snd (emit CallGetVehicles w)) with
  | (Return token, w1) =>
      if isRegistered (svc w1) then
        (match list_reply_vehicles w1 with
         | Some vehicles => Return vehicles
         | None => Throw FAILED_TO_FETCH
         end, snd (TeslaService.get_vehicles token w1))
      else (Throw FAILED_TO_FETCH, w1)
  | (Throw e, w1) => (Throw e, w1)
  end.
Proof.
  unfold TeslaService.getVehicles at 1. unfold bind at 1. cbn [emit modify].
  unfold bind at 1.
  change (snd (emit CallGetVehicles w)) with
    (set_remote {| clock := clock (remote w); env := env (remote w);
                   auth_replies := auth_replies (remote w);
                   list_replies := list_replies (remote w);
                   wake_replies := wake_replies (remote w);
                   trace := trace (remote w) ++ [CallGetVehicles] |} w).
  destruct (TeslaService.getAccessToken _) as [[token|e] w1]; [|reflexivity].
  unfold list_reply_vehicles, TeslaService.get_vehicles. unfold_monad.
  destruct_world w1. cbn.
  destruct reg; cbn; [|reflexivity].
  destruct_reply lr; cbn; try reflexivity.
  destruct data as [[vs|]]; reflexivity.
Qed.

(** C5, as amended.  Once the token is obtained, the list operation returns
    the response's vehicle array, or an empty sequence when the body has
    none; it fails with the one generic error "Failed to fetch vehicles"
    (no status, no body) when the list request is rejected or resolves with
    a null body, and with that same error when the application is not
    registered; the registration check is local and comes before the list
    request, so that no list request is sent when it fails (the world is the
    one the token acquisition left). *)
Theorem list_operation_outcomes (w w1 : World) (token : string)
    (Htoken : TeslaService.getAccessToken (snd (emit CallGetVehicles w))
              = (Return token, w1)) :
  (isRegistered (svc w) = false ->
     TeslaService.getVehicles w = (Throw FAILED_TO_FETCH, w1))
  /\ (isRegistered (svc w) = true ->
      fst (TeslaService.getVehicles w)
      = match list_reply_vehicles w1 with
        | Some vehicles => Return vehicles
        | None => Throw FAILED_TO_FETCH
        end
      /\ trace (remote (snd (TeslaService.getVehicles w)))
         = trace (remote w1) ++ [Http GET LIST_URL (Some token)]).
Proof.
  pose proof (ts_registered _ _
                (getAccessToken_step (snd (emit CallGetVehicles w)))) as Hreg.
  rewrite service_getVehicles_unfold. rewrite Htoken in *.
  cbn [fst snd] in Hreg. change (isRegistered (svc (snd (emit CallGetVehicles w))))
    with (isRegistered (svc w)) in Hreg.
  rewrite Hreg. split; intros R; rewrite R.
  - reflexivity.
  - split; [reflexivity|]. cbn [snd]. apply get_vehicles_effect.
Qed.

(** A registered application with a valid token receives the one vehicle the
    remote reports. *)
Lemma list_operation_outcomes_witness :
  TeslaService.getAccessToken (snd (emit CallGetVehicles one_car_remote_world))
  = (Return "tok", snd (emit CallGetVehicles one_car_remote_world))
  /\ isRegistered (svc one_car_remote_world) = true
  /\ fst (TeslaService.getVehicles one_car_remote_world) = Return [car].
Proof.
  split; [reflexivity|]. split; [reflexivity|].
  exact (proj1 (proj2 (list_operation_outcomes one_car_remote_world
                         (snd (emit CallGetVehicles one_car_remote_world))
                         "tok" eq_refl) eq_refl)).
Defined.

(** C5 as stated fails.  For an unregistered application the list operation
    first sends a token request, then fails with the generic error; a 500
    answer of the list endpoint yields exactly the same error, which carries
    neither status nor body. *)
Lemma registration_error_counterexample :
  isRegistered (svc unregistered_world) = false
  /\ fst (TeslaService.getVehicles unregistered_world)
     = Throw (Error (Str "Failed to fetch vehicles"))
  /\ trace (remote (snd (TeslaService.getVehicles unregistered_world)))
     = [CallGetVehicles; Http POST AUTH_URL None]
  /\ fst (TeslaService.getVehicles http_500_world)
     = fst (TeslaService.getVehicles unregistered_world).
Proof. repeat split. Qed.

Lemma service_getVehicles_step (w : World) :
  list_step w (snd (TeslaService.getVehicles w)).
Proof.
  rewrite service_getVehicles_unfold.
  pose proof (getAccessToken_step (snd (emit CallGetVehicles w))) as S.
  assert (Ht : forall w1,
             token_step (snd (emit CallGetVehicles w)) w1 ->
             exists evs,
               trace (remote w1) = trace (remote w) ++ CallGetVehicles :: evs
               /\ forallb is_http evs = true
               /\ forallb (fun e => negb (is_wake_event e)) evs = true
               /\ filter is_list_request evs = []).
  { intros w1 S1. destruct (ts_trace _ _ S1) as [E|E]; rewrite E; cbn.
    - exists []. auto.
    - exists [Http POST AUTH_URL None]. rewrite <- app_assoc. auto. }
  destruct (TeslaService.getAccessToken _) as [[token|e] w1]; cbn [fst snd] in S.
  - assert (Hc : cache w1 = cache w) by exact (ts_cache _ _ S).
    destruct (Ht w1 S) as (evs & E1 & E2 & E3 & E4).
    destruct (isRegistered (svc w1)); cbn [snd].
    + destruct (get_vehicles_effect token w1) as (Et & Ec & _).
      constructor; [congruence|].
      exists (evs ++ [Http GET LIST_URL (Some token)]).
      rewrite Et, E1, <- app_assoc. cbn.
      rewrite !forallb_app, filter_app, E2, E3, E4. cbn. auto.
    + constructor; [assumption|].
      exists evs. rewrite E4. cbn. auto.
  - cbn [snd]. constructor; [exact (ts_cache _ _ S)|].
    destruct (Ht w1 S) as (evs & E1 & E2 & E3 & E4).
    exists evs. rewrite E4. cbn. auto.
Qed.

Lemma http_events_no_list_call (evs : list Event) :
  forallb is_http evs = true -> filter is_list_call evs = [].
Proof.
  induction evs as [|[| |] evs IH]; cbn; auto; discriminate.
Qed.

Lemma list_step_calls (w w' : World) :
  list_step w w' -> list_calls w' = S (list_calls w).
Proof.
  intros [_ (evs & E & Hh & _ & _)]. unfold list_calls. rewrite E.
  rewrite filter_app. cbn. rewrite (http_events_no_list_call evs Hh).
  rewrite length_app. cbn. lia.
Qed.

Lemma list_step_no_wake (w w' : World) :
  list_step w w' -> wake_events w' = wake_events w.
Proof.
  intros [_ (evs & E & _ & Hw & _)]. unfold wake_events. rewrite E.
  rewrite filter_app. cbn.
  assert (F : filter is_wake_event evs = []).
  { clear E. induction evs as [|e evs IH]; cbn in *; [reflexivity|].
    apply andb_true_iff in Hw. destruct Hw as [H1 H2].
    destruct (is_wake_event e); [discriminate|]. auto. }
  rewrite F. apply app_nil_r.
Qed.

Lemma list_step_requests (w w' : World) :
  list_step w w' -> (list_requests w' <= S (list_requests w))%nat.
Proof.
  intros [_ (evs & E & _ & _ & Hr)]. unfold list_requests. rewrite E.
  rewrite filter_app, length_app. cbn. lia.
Qed.

(* ===================================================================== *)
(** ** Vehicle cache *)
(* ===================================================================== *)

(** The code's test is the specification's condition. *)
Lemma cache_needs_refresh_spec (forceRefresh : bool) (w : World) :
  cache_needs_refresh forceRefresh w = true <-> must_refresh forceRefresh w.
Proof.
  unfold cache_needs_refresh, must_refresh, CACHE_TTL.
  rewrite !orb_true_iff, Nat.eqb_eq, length_zero_iff_nil, Z.gtb_gt.
  tauto.
Qed.

(** A read that needs no refresh returns the cache and changes nothing. *)
Lemma getVehicles_fresh (forceRefresh : bool) (w : World) :
  cache_needs_refresh forceRefresh w = false ->
  getVehicles forceRefresh w = (Return (vehiclesCache (cache w)), w).
Proof.
  intros H. unfold getVehicles. unfold_monad. cbv beta iota. rewrite H.
  reflexivity.
Qed.

(** A read that needs a refresh calls the list operation once: on success
    the cache and the fetch-instant are replaced, on failure the cache is
    served as it is. *)
Lemma getVehicles_refresh (forceRefresh : bool) (w : World) :
  cache_needs_refresh forceRefresh w = true ->
  getVehicles forceRefresh w =
  match TeslaService.getVehicles w with
  | (Return vehicles, w1) =>
      (Return vehicles,
       set_lastVehicleFetch (clock (remote w)) (set_vehiclesCache vehicles w1))
  | (Throw _, w1) => (Return (vehiclesCache (cache w1)), w1)
  end.
Proof.
  intros H. unfold getVehicles. unfold_monad. cbv beta iota. rewrite H.
  destruct (TeslaService.getVehicles w) as [[vehicles|e] w1]; cbn.
  - reflexivity.
  - destruct (vehiclesCache (cache w1)) eqn:Ec; cbn; rewrite ?Ec; reflexivity.
Qed.

(** A cache read never raises, and what it returns is the cache as the read
    leaves it. *)
Lemma getVehicles_returns_cache (forceRefresh : bool) (w : World) :
  fst (getVehicles forceRefresh w)
  = Return (vehiclesCache (cache (snd (getVehicles forceRefresh w)))).
Proof.
  destruct (cache_needs_refresh forceRefresh w) eqn:E.
  - rewrite getVehicles_refresh by assumption.
    destruct (TeslaService.getVehicles w) as [[vehicles|e] w1]; reflexivity.
  - rewrite getVehicles_fresh by assumption. reflexivity.
Qed.

(** A cache read never invokes the wake operation. *)
Lemma getVehicles_no_wake (forceRefresh : bool) (w : World) :
  wake_events (snd (getVehicles forceRefresh w)) = wake_events w.
Proof.
  destruct (cache_needs_refresh forceRefresh w) eqn:E.
  - rewrite getVehicles_refresh by assumption.
    pose proof (list_step_no_wake _ _ (service_getVehicles_step w)) as S.
    destruct (TeslaService.getVehicles w) as [[vehicles|e] w1]; exact S.
  - rewrite getVehicles_fresh by assumption. reflexivity.
Qed.

(** A refreshing read invokes the list operation exactly once, which sends
    at most one request to the list endpoint. *)
Lemma refresh_calls_once (forceRefresh : bool) (w : World) :
  cache_needs_refresh forceRefresh w = true ->
  list_calls (snd (getVehicles forceRefresh w)) = S (list_calls w)
  /\ (list_requests (snd (getVehicles forceRefresh w))
      <= S (list_requests w))%nat.
Proof.
  intros H. rewrite getVehicles_refresh by assumption.
  pose proof (list_step_calls _ _ (service_getVehicles_step w)) as S.
  pose proof (list_step_requests _ _ (service_getVehicles_step w)) as R.
  destruct (TeslaService.getVehicles w) as [[vehicles|e] w1]; auto.
Qed.

(** A failing list operation leaves the cache and lets the read return
    it. *)
Lemma refresh_failure (forceRefresh : bool) (w w1 : World) (e : JsError) :
  cache_needs_refresh forceRefresh w = true ->
  TeslaService.getVehicles w = (Throw e, w1) ->
  getVehicles forceRefresh w = (Return (vehiclesCache (cache w)), w1)
  /\ cache w1 = cache w.
Proof.
  intros H Hfail.
  pose proof (ls_cache _ _ (service_getVehicles_step w)) as Hc.
  rewrite Hfail in Hc; cbn [snd] in Hc.
  rewrite getVehicles_refresh by assumption. rewrite Hfail, Hc. auto.
Qed.

(** The requests of one invocation of the list operation: at most one token
    request, then at most one request to the list endpoint. *)
Lemma service_getVehicles_requests (w : World) :
  exists token_requests list_requests_sent,
    trace (remote (snd (TeslaService.getVehicles w)))
    = trace (remote w) ++ CallGetVehicles :: token_requests ++ list_requests_sent
    /\ (token_requests = [] \/ token_requests = [Http POST AUTH_URL None])
    /\ (list_requests_sent = []
        \/ exists token, list_requests_sent = [Http GET LIST_URL (Some token)]).
Proof.
  rewrite service_getVehicles_unfold.
  pose proof (getAccessToken_step (snd (emit CallGetVehicles w))) as S.
  assert (Ht : forall w1,
             token_step (snd (emit CallGetVehicles w)) w1 ->
             exists token_requests,
               trace (remote w1)
               = trace (remote w) ++ CallGetVehicles :: token_requests
               /\ (token_requests = []
                   \/ token_requests = [Http POST AUTH_URL None])).
  { intros w1 S1. destruct (ts_trace _ _ S1) as [E|E]; rewrite E; cbn.
    - exists []. auto.
    - exists [Http POST AUTH_URL None]. rewrite <- app_assoc. auto. }
  destruct (TeslaService.getAccessToken _) as [[token|e] w1];
    cbn [fst snd] in S.
  - destruct (Ht w1 S) as (tr & E1 & E2).
    destruct (isRegistered (svc w1)); cbn [snd].
    + destruct (get_vehicles_effect token w1) as (Et & _).
      exists tr, [Http GET LIST_URL (Some token)].
      rewrite Et, E1, <- app_assoc. cbn. eauto.
    + exists tr, []. rewrite app_nil_r. auto.
  - cbn [snd]. destruct (Ht w1 S) as (tr & E1 & E2).
    exists tr, []. rewrite app_nil_r. auto.
Qed.

(** With an unexpired token and a registered application, the list operation
    sends exactly one request, the GET to the list endpoint with the held
    token, and returns what that request yields. *)
Lemma service_getVehicles_valid_token (w : World) (token : string) :
  TeslaService.token_needs_refresh w = false ->
  accessToken (svc w) = Some token ->
  isRegistered (svc w) = true ->
  fst (TeslaService.getVehicles w)
  = match list_reply_vehicles w with
    | Some vehicles => Return vehicles
    | None => Throw FAILED_TO_FETCH
    end
  /\ trace (remote (snd (TeslaService.getVehicles w)))
     = trace (remote w) ++ [CallGetVehicles; Http GET LIST_URL (Some token)]
  /\ cache (snd (TeslaService.getVehicles w)) = cache w.
Proof.
  intros Hfresh Htok Hreg.
  unfold TeslaService.token_needs_refresh in Hfresh.
  apply orb_false_iff in Hfresh. destruct Hfresh as [Hf Hexp].
  rewrite Htok in Hf.
  assert (G : TeslaService.getAccessToken (snd (emit CallGetVehicles w))
              = (Return token, snd (emit CallGetVehicles w)))
    by (apply getAccessToken_serves_held; assumption).
  rewrite service_getVehicles_unfold, G.
  change (isRegistered (svc (snd (emit CallGetVehicles w))))
    with (isRegistered (svc w)).
  rewrite Hreg. cbn [fst snd].
  destruct (get_vehicles_effect token (snd (emit CallGetVehicles w)))
    as (Et & Ec & _).
  split; [reflexivity|]. split.
  - rewrite Et. cbn. rewrite <- app_assoc. reflexivity.
  - rewrite Ec. reflexivity.
Qed.

(** C2, as amended.  The cache read invokes the remote client's list
    operation exactly when [forceRefresh] is true, or the cache is empty, or
    the cache age exceeds 60 seconds, and then exactly once; otherwise it
    returns the cached vehicles and leaves the whole world, trace included,
    as it was (no network call).  In the refresh case the invocation sends at
    most one token request followed by at most one request to the list
    endpoint; it sends exactly one network request, the GET to the list
    endpoint with the held token, when an unexpired token is held and the
    application is registered, and then the read returns the reply's vehicles
    and replaces the cache contents and the fetch-instant (the clock at the
    start of the read), or, when that request fails, serves the cache as it
    was.  Whenever the list operation succeeds, its vehicles and the start
    instant replace the cache. *)
Theorem cache_read_policy (forceRefresh : bool) (w : World) :
  (must_refresh forceRefresh w ->
     list_calls (snd (getVehicles forceRefresh w)) = S (list_calls w)
     /\ (exists token_requests list_requests_sent,
           trace (remote (snd (getVehicles forceRefresh w)))
           = trace (remote w)
             ++ CallGetVehicles :: token_requests ++ list_requests_sent
           /\ (token_requests = []
               \/ token_requests = [Http POST AUTH_URL None])
           /\ (list_requests_sent = []
               \/ exists token,
                    list_requests_sent = [Http GET LIST_URL (Some token)]))
     /\ (forall token,
           TeslaService.token_needs_refresh w = false ->
           accessToken (svc w) = Some token ->
           isRegistered (svc w) = true ->
           trace (remote (snd (getVehicles forceRefresh w)))
           = trace (remote w)
             ++ [CallGetVehicles; Http GET LIST_URL (Some token)]
           /\ match list_reply_vehicles w with
              | Some vehicles =>
                  fst (getVehicles forceRefresh w) = Return vehicles
                  /\ cache (snd (getVehicles forceRefresh w))
                     = {| vehiclesCache := vehicles;
                          lastVehicleFetch := clock (remote w) |}
              | None =>
                  fst (getVehicles forceRefresh w)
                  = Return (vehiclesCache (cache w))
                  /\ cache (snd (getVehicles forceRefresh w)) = cache w
              end)
     /\ forall vehicles w1,
          TeslaService.getVehicles w = (Return vehicles, w1) ->
          fst (getVehicles forceRefresh w) = Return vehicles
          /\ cache (snd (getVehicles forceRefresh w))
             = {| vehiclesCache := vehicles;
                  lastVehicleFetch := clock (remote w) |})
  /\ (~ must_refresh forceRefresh w ->
      getVehicles forceRefresh w = (Return (vehiclesCache (cache w)), w)).
Proof.
  split; intros H.
  - apply cache_needs_refresh_spec in H.
    destruct (refresh_calls_once forceRefresh w H) as [C _].
    split; [exact C|]. split; [|split].
    + rewrite getVehicles_refresh by assumption.
      pose proof (service_getVehicles_requests w) as R.
      destruct (TeslaService.getVehicles w) as [[vehicles|e] w1]; exact R.
    + intros token Hfresh Htok Hreg.
      destruct (service_getVehicles_valid_token w token Hfresh Htok Hreg)
        as (Ho & Et & Ec).
      rewrite getVehicles_refresh by assumption.
      destruct (TeslaService.getVehicles w) as [o w1]; cbn [fst snd] in *.
      subst o. destruct (list_reply_vehicles w) as [vehicles|].
      * cbn. split; [exact Et|]. auto.
      * cbn. split; [exact Et|]. rewrite Ec. auto.
    + intros vehicles w1 E. rewrite getVehicles_refresh by assumption.
      rewrite E. auto.
  - apply getVehicles_fresh.
    destruct (cache_needs_refresh forceRefresh w) eqn:E; [|reflexivity].
    apply cache_needs_refresh_spec in E. contradiction.
Qed.

(** The cache filled at instant 0 is served without any call at 59 s; at
    61 s, with the valid token held, it is refreshed by exactly one request,
    whose vehicles and start instant replace the cache. *)
Lemma cache_read_policy_witness :
  (~ must_refresh false at_59_seconds
   /\ getVehicles false at_59_seconds = (Return [car], at_59_seconds))
  /\ (must_refresh false at_61_seconds
      /\ list_calls (snd (getVehicles false at_61_seconds))
         = S (list_calls at_61_seconds)
      /\ trace (remote (snd (getVehicles false at_61_seconds)))
         = [CallGetVehicles; Http GET LIST_URL (Some "tok")]
      /\ fst (getVehicles false at_61_seconds) = Return [car; unnamed_car]
      /\ cache (snd (getVehicles false at_61_seconds))
         = {| vehiclesCache := [car; unnamed_car];
              lastVehicleFetch := 61000 |}).
Proof.
  assert (H59 : ~ must_refresh false at_59_seconds).
  { unfold must_refresh; cbn. intros [H|[H|H]]; [discriminate|discriminate|lia]. }
  assert (H61 : must_refresh false at_61_seconds).
  { unfold must_refresh; cbn. right; right; lia. }
  split.
  - split; [exact H59|].
    exact (proj2 (cache_read_policy false at_59_seconds) H59).
  - split; [exact H61|].
    destruct (proj1 (cache_read_policy false at_61_seconds) H61)
      as (C & _ & V & _).
    split; [exact C|].
    destruct (V "tok" eq_refl eq_refl eq_refl) as (T & R & K).
    repeat split; assumption.
Defined.

(** C2 as stated fails: a refreshing read does not always make exactly one
    network call.  On a stale cache with an expired token it sends two
    requests, the token request and the list request; a forced refresh of an
    unregistered application sends none. *)
Lemma cache_read_requests_counterexample :
  must_refresh false expired_token_stale_world
  /\ trace (remote (snd (getVehicles false expired_token_stale_world)))
     = [CallGetVehicles; Http POST AUTH_URL None;
        Http GET LIST_URL (Some "new")]
  /\ length (filter is_http
               (trace (remote (snd (getVehicles false
                                      expired_token_stale_world))))) = 2%nat
  /\ must_refresh true unregistered_wake_world
  /\ trace (remote (snd (getVehicles true unregistered_wake_world)))
     = [CallGetVehicles]
  /\ length (filter is_http
               (trace (remote (snd (getVehicles true
                                      unregistered_wake_world))))) = 0%nat.
Proof.
  split; [right; right; cbn; lia|].
  split; [reflexivity|]. split; [reflexivity|].
  split; [left; reflexivity|].
  split; reflexivity.
Qed.

(** C3.  When the remote list operation fails during a cache read, the read
    does not raise: it returns the cache as it was (the previous data when
    the cache is non-empty, the empty sequence when it is empty), and leaves
    the cache contents and the fetch-instant unchanged, so that the same read
    repeated at the same simulated time invokes the list operation again. *)
Theorem cache_read_failure (forceRefresh : bool) (w w1 : World) (e : JsError)
    (Hrefresh : must_refresh forceRefresh w)
    (Hfail : TeslaService.getVehicles w = (Throw e, w1)) :
  getVehicles forceRefresh w = (Return (vehiclesCache (cache w)), w1)
  /\ cache w1 = cache w
  /\ (vehiclesCache (cache w) = [] ->
      fst (getVehicles forceRefresh w) = Return [])
  /\ (forall w2,
        cache w2 = cache w1 -> clock (remote w2) = clock (remote w) ->
        list_calls (snd (getVehicles forceRefresh w2)) = S (list_calls w2)).
Proof.
  pose proof (proj2 (cache_needs_refresh_spec forceRefresh w) Hrefresh) as R.
  destruct (refresh_failure forceRefresh w w1 e R Hfail) as [E Hc].
  split; [exact E|]. split; [exact Hc|]. split.
  - intros Hnil. rewrite E. cbn. rewrite Hnil. reflexivity.
  - intros w2 Hc2 Hclk. apply refresh_calls_once.
    apply cache_needs_refresh_spec.
    unfold must_refresh in *. rewrite Hc2, Hc, Hclk. exact Hrefresh.
Qed.

(** The stale cache is served when the list endpoint is unreachable, and the
    fetch-instant stays, so the next read tries again. *)
Lemma cache_read_failure_witness :
  must_refresh false unreachable_world
  /\ TeslaService.getVehicles unreachable_world
     = (Throw FAILED_TO_FETCH, snd (TeslaService.getVehicles unreachable_world))
  /\ getVehicles false unreachable_world
     = (Return [car], snd (TeslaService.getVehicles unreachable_world))
  /\ cache (snd (TeslaService.getVehicles unreachable_world))
     = cache unreachable_world.
Proof.
  assert (H : must_refresh false unreachable_world).
  { unfold must_refresh; cbn. right; right; lia. }
  split; [exact H|]. split; [reflexivity|].
  destruct (cache_read_failure false unreachable_world
              (snd (TeslaService.getVehicles unreachable_world))
              FAILED_TO_FETCH H eq_refl) as (E & C & _).
  split; [exact E | exact C].
Defined.

(* ===================================================================== *)
(** ** Tool and resource adapter *)
(* ===================================================================== *)

(** The tool handler dispatches on the tool's name. *)
Lemma callTool_dispatch (argument : option string) :
  callTool "wake_up" argument = wake_up argument
  /\ callTool "refresh_vehicles" argument = refresh_vehicles
  /\ callTool "debug_vehicles" argument = debug_vehicles
  /\ callTool "honk" argument = throw (Error (Str "Unknown tool")).
Proof. repeat split. Qed.

(** A handler that reads the cache and formats the result. *)
Lemma read_then_format {A : Type} (format : list Vehicle -> A) (w : World) :
  bind (getVehicles false) (fun vehicles => ret (format vehicles)) w
  = (Return (format (vehiclesCache (cache (snd (getVehicles false w))))),
     snd (getVehicles false w)).
Proof.
  unfold bind, ret. pose proof (getVehicles_returns_cache false w) as E.
  destruct (getVehicles false w) as [o w1]; cbn [fst snd] in *. subst o.
  reflexivity.
Qed.

Lemma not_must_refresh (w : World) :
  ~ must_refresh false w -> cache_needs_refresh false w = false.
Proof.
  intros H. destruct (cache_needs_refresh false w) eqn:E; [|reflexivity].
  apply cache_needs_refresh_spec in E. contradiction.
Qed.

(** C9, as amended.  The list-resources operation never raises and returns
    one descriptor per cached vehicle (the cache as the read leaves it), in
    order, with uri "tesla://" followed by the vehicle's id, mime type
    "application/json", and as name the vehicle's display name when it is
    not empty, else "Tesla (" VIN ")".  With an empty cache and a failing
    fetch it returns no entry; with a fresh cache holding one vehicle it
    returns exactly that vehicle's descriptor and changes nothing. *)
Theorem resource_descriptors (w : World) :
  fst (listResources w)
  = Return (map resource_of (vehiclesCache (cache (snd (listResources w)))))
  /\ (forall v,
        Resource.uri (resource_of v) = ("tesla://" ++ id v)%string
        /\ Resource.mimeType (resource_of v) = "application/json"
        /\ Resource.name (resource_of v)
           = if String.eqb (display_name v) ""
             then ("Tesla (" ++ vin v ++ ")")%string
             else display_name v)
  /\ (forall e w1,
        vehiclesCache (cache w) = [] ->
        TeslaService.getVehicles w = (Throw e, w1) ->
        fst (listResources w) = Return [])
  /\ (forall v,
        vehiclesCache (cache w) = [v] ->
        clock (remote w) - lastVehicleFetch (cache w) <= 60000 ->
        listResources w = (Return [resource_of v], w)).
Proof.
  unfold listResources. rewrite read_then_format. cbn [fst snd].
  split; [reflexivity|]. split; [|split].
  - intros v. unfold resource_of, or_else, truthy; cbn.
    destruct (String.eqb (display_name v) ""); auto.
  - intros e w1 Hnil Hfail.
    assert (R : cache_needs_refresh false w = true).
    { apply cache_needs_refresh_spec. right; left; exact Hnil. }
    destruct (refresh_failure false w w1 e R Hfail) as (E & C).
    rewrite E. cbn [fst snd]. rewrite C, Hnil. reflexivity.
  - intros v Hv Hage.
    rewrite getVehicles_fresh.
    + cbn. rewrite Hv. reflexivity.
    + apply not_must_refresh. unfold must_refresh. rewrite Hv.
      intros [H|[H|H]]; [discriminate|discriminate|lia].
Qed.

(** A fresh cache with the one vehicle "Car" lists one resource named
    "Car" whose uri contains "1". *)
Lemma resource_descriptors_witness :
  vehiclesCache (cache at_59_seconds) = [car]
  /\ clock (remote at_59_seconds) - lastVehicleFetch (cache at_59_seconds)
     <= 60000
  /\ listResources at_59_seconds
     = (Return [{| Resource.uri := "tesla://1";
                   Resource.mimeType := "application/json";
                   Resource.name := "Car";
                   Resource.description :=
                     "Tesla vehicle: Car (VIN: 5YJ3E1EA7JF000001)" |}],
        at_59_seconds).
Proof.
  split; [reflexivity|]. split; [cbn; lia|].
  apply (proj2 (proj2 (proj2 (resource_descriptors at_59_seconds))) car).
  - reflexivity.
  - cbn; lia.
Defined.

(** C9 as stated fails: for a cached vehicle whose display name is empty the
    descriptor's name is not the display name but "Tesla (VIN2)". *)
Lemma resource_name_counterexample :
  vehiclesCache (cache unnamed_cached_world) = [unnamed_car]
  /\ display_name unnamed_car = ""
  /\ fst (listResources unnamed_cached_world)
     = Return [{| Resource.uri := "tesla://2";
                  Resource.mimeType := "application/json";
                  Resource.name := "Tesla (VIN2)";
                  Resource.description :=
                    "Tesla vehicle: Unknown (VIN: VIN2)" |}]
  /\ map Resource.name (map resource_of (vehiclesCache (cache unnamed_cached_world)))
     <> map display_name (vehiclesCache (cache unnamed_cached_world)).
Proof. repeat split. discriminate. Qed.

(** End to end: no entry while the remote reports no vehicle; after
    [refresh_vehicles] brings one vehicle in, exactly one descriptor. *)
Example resources_end_to_end :
  fst (listResources starting_world) = Return []
  /\ fst (refresh_vehicles (snd (listResources starting_world)))
     = Return "Successfully refreshed the vehicle list. Found 1 vehicles."
  /\ fst (listResources
            (snd (refresh_vehicles (snd (listResources starting_world)))))
     = Return [{| Resource.uri := "tesla://1";
                  Resource.mimeType := "application/json";
                  Resource.name := "Car";
                  Resource.description := "Tesla vehicle: Car (VIN: VIN1)" |}].
Proof. repeat split. Qed.

(** C10.  Whenever the cache read yields no vehicle, the list-tools
    operation returns the empty tool list and the cache is still empty, so
    none of the three tools is advertised before a fetch has brought at
    least one vehicle into the cache. *)
Theorem no_tools_without_vehicles (w : World)
    (H : fst (getVehicles false w) = Return []) :
  fst (listTools w) = Return []
  /\ vehiclesCache (cache (snd (listTools w))) = [].
Proof.
  unfold listTools, bind, ret.
  pose proof (getVehicles_returns_cache false w) as E.
  destruct (getVehicles false w) as [o w1]; cbn [fst snd] in *.
  rewrite H in E. injection E as Hnil. rewrite H. cbn. auto.
Qed.

(** With no reachable remote at process start, no tool is advertised. *)
Lemma no_tools_without_vehicles_witness :
  fst (getVehicles false offline_world) = Return []
  /\ fst (listTools offline_world) = Return []
  /\ vehiclesCache (cache (snd (listTools offline_world))) = [].
Proof.
  split; [reflexivity|].
  apply (no_tools_without_vehicles offline_world). reflexivity.
Defined.

(** Conversely the three tools are advertised as soon as the read yields a
    vehicle. *)
Lemma tools_with_vehicles (w : World) (v : Vehicle) (rest : list Vehicle) :
  fst (getVehicles false w) = Return (v :: rest) ->
  fst (listTools w)
  = Return [wake_up_tool; refresh_vehicles_tool; debug_vehicles_tool].
Proof.
  intros H. unfold listTools, bind, ret.
  destruct (getVehicles false w) as [o w1]; cbn [fst] in H. subst o.
  reflexivity.
Qed.

(** C8, as amended.  The [debug_vehicles] tool reads through the cache with
    [forceRefresh] false and never raises: it returns the text built from the
    id, vehicle_id, VIN and state of the cached vehicles (the cache as the
    read leaves it).  When the cache is non-empty and at most 60 seconds old,
    the tool leaves the cache contents, the fetch-instant and the trace
    unchanged (no remote list call); an empty or older cache is refreshed as
    by any other read. *)
Theorem debug_vehicles_reads_cache (w : World) :
  debug_vehicles w
  = (Return (debug_text (vehiclesCache (cache (snd (getVehicles false w))))),
     snd (getVehicles false w))
  /\ (~ must_refresh false w ->
      debug_vehicles w = (Return (debug_text (vehiclesCache (cache w))), w)).
Proof.
  unfold debug_vehicles. rewrite read_then_format. split; [reflexivity|].
  intros H. rewrite getVehicles_fresh by (apply not_must_refresh; exact H).
  reflexivity.
Qed.

(** At 59 s the tool reports the cached car and changes nothing. *)
Lemma debug_vehicles_reads_cache_witness :
  ~ must_refresh false at_59_seconds
  /\ debug_vehicles at_59_seconds
     = (Return (debug_text [car]), at_59_seconds).
Proof.
  assert (H59 : ~ must_refresh false at_59_seconds).
  { unfold must_refresh; cbn. intros [H|[H|H]]; [discriminate|discriminate|lia]. }
  split; [exact H59|].
  exact (proj2 (debug_vehicles_reads_cache at_59_seconds) H59).
Defined.

(** The text for the cached car. *)
Example debug_text_car :
  debug_text [car]
  = ("Found 1 vehicles:" ++ LF ++ LF
     ++ "Vehicle: Car" ++ LF
     ++ "- id: 1" ++ LF
     ++ "- vehicle_id: 12345" ++ LF
     ++ "- vin: 5YJ3E1EA7JF000001" ++ LF
     ++ "- state: online")%string.
Proof. reflexivity. Qed.

(** C8 as stated fails: on a cache older than 60 seconds the tool invokes
    the remote list operation and replaces the cache contents and the
    fetch-instant. *)
Lemma debug_vehicles_refresh_counterexample :
  cache at_61_seconds = {| vehiclesCache := [car]; lastVehicleFetch := 0 |}
  /\ list_calls at_61_seconds = 0%nat
  /\ list_calls (snd (debug_vehicles at_61_seconds)) = 1%nat
  /\ trace (remote (snd (debug_vehicles at_61_seconds)))
     = [CallGetVehicles; Http GET LIST_URL (Some "tok")]
  /\ cache (snd (debug_vehicles at_61_seconds))
     = {| vehiclesCache := [car; unnamed_car]; lastVehicleFetch := 61000 |}.
Proof. repeat split. Qed.

(* --------------------------------------------------------------------- *)
(** *** The wake_up tool *)
(* --------------------------------------------------------------------- *)

(** [find] returns the first vehicle, in cache order, one of whose three
    identifiers is the token. *)
Lemma matches_spec (vehicleId : string) (v : Vehicle) :
  matches vehicleId v = true
  <-> id v = vehicleId
      \/ String_of_Z (vehicle_id v) = vehicleId
      \/ vin v = vehicleId.
Proof.
  unfold matches. rewrite !orb_true_iff, !String.eqb_eq. tauto.
Qed.

Lemma find_first_match (vehicleId : string) (pre post : list Vehicle)
    (v : Vehicle) :
  (forall u, In u pre -> matches vehicleId u = false) ->
  matches vehicleId v = true ->
  find (matches vehicleId) (pre ++ v :: post) = Some v.
Proof.
  intros Hpre Hv. induction pre as [|u pre IH]; cbn.
  - rewrite Hv. reflexivity.
  - rewrite (Hpre u (or_introl eq_refl)). apply IH.
    intros u' Hu'. apply Hpre. right. exact Hu'.
Qed.

Lemma find_no_match (vehicleId : string) (vehicles : list Vehicle) :
  (forall u, In u vehicles -> matches vehicleId u = false) ->
  find (matches vehicleId) vehicles = None.
Proof.
  intros H. induction vehicles as [|u vehicles IH]; cbn; [reflexivity|].
  rewrite (H u (or_introl eq_refl)). apply IH.
  intros u' Hu'. apply H. right. exact Hu'.
Qed.

(** The handler in closed form, for a non-empty token. *)
Lemma wake_up_unfold (argument : option string) (w : World) :
  String_of_argument argument <> "" ->
  wake_up argument w
  = match resolve (String_of_argument argument) w with
    | Some vehicle =>
        wake_up_found (String_of_argument argument) vehicle
          (snd (getVehicles false w))
    | None =>
        (Throw (NOT_FOUND (String_of_argument argument)),
         snd (getVehicles false w))
    end.
Proof.
  intros Hne. unfold wake_up, resolve, truthy.
  apply String.eqb_neq in Hne. rewrite Hne. cbn [negb].
  unfold bind. pose proof (getVehicles_returns_cache false w) as E.
  destruct (getVehicles false w) as [o w1]; cbn [fst snd] in *. subst o.
  destruct (find _ _); reflexivity.
Qed.

(** C6, as amended.  For every non-empty token, the [wake_up] tool resolves
    the token against the result of its cache read by comparing it to each
    vehicle's id, vehicle_id (in decimal) and VIN, in that order, and takes
    the first vehicle that matches: a vehicle with no match before it is
    found by any of its three identifiers.  When no cached vehicle matches on
    any of the three fields, the tool fails with the error "Vehicle <token>
    not found" and no wake call or wake request is made. *)
Theorem wake_up_resolution (argument : option string) (w : World)
    (Hne : String_of_argument argument <> "") :
  wake_up argument w
  = match resolve (String_of_argument argument) w with
    | Some vehicle =>
        wake_up_found (String_of_argument argument) vehicle
          (snd (getVehicles false w))
    | None =>
        (Throw (NOT_FOUND (String_of_argument argument)),
         snd (getVehicles false w))
    end
  /\ (forall pre v post,
        vehiclesCache (cache (snd (getVehicles false w))) = pre ++ v :: post ->
        (forall u, In u pre -> matches (String_of_argument argument) u = false) ->
        id v = String_of_argument argument
        \/ String_of_Z (vehicle_id v) = String_of_argument argument
        \/ vin v = String_of_argument argument ->
        resolve (String_of_argument argument) w = Some v)
  /\ ((forall u,
         In u (vehiclesCache (cache (snd (getVehicles false w)))) ->
         id u <> String_of_argument argument
         /\ String_of_Z (vehicle_id u) <> String_of_argument argument
         /\ vin u <> String_of_argument argument) ->
      fst (wake_up argument w) = Throw (NOT_FOUND (String_of_argument argument))
      /\ wake_events (snd (wake_up argument w)) = wake_events w).
Proof.
  split; [apply wake_up_unfold; exact Hne|]. split.
  - intros pre v post Hcache Hpre Hv. unfold resolve. rewrite Hcache.
    apply find_first_match; [exact Hpre|]. apply matches_spec. exact Hv.
  - intros Hnone. rewrite wake_up_unfold by exact Hne.
    assert (R : resolve (String_of_argument argument) w = None).
    { apply find_no_match. intros u Hu.
      destruct (matches (String_of_argument argument) u) eqn:Em;
        [|reflexivity].
      apply matches_spec in Em. destruct (Hnone u Hu) as (H1 & H2 & H3).
      destruct Em as [Em|[Em|Em]]; contradiction. }
    rewrite R. cbn [fst snd]. split; [reflexivity|].
    apply getVehicles_no_wake.
Qed.

(** The cached car is found by its id, by its vehicle_id and by its VIN, and
    an unrelated token is not found. *)
Example wake_up_three_forms :
  resolve "1" wake_world = Some car
  /\ resolve "12345" wake_world = Some car
  /\ resolve "5YJ3E1EA7JF000001" wake_world = Some car
  /\ wake_up (Some "unrelated") wake_world
     = (Throw (NOT_FOUND "unrelated"), wake_world).
Proof. repeat split. Qed.

Lemma wake_up_resolution_witness :
  String_of_argument (Some "12345") <> ""
  /\ resolve "12345" wake_world = Some car
  /\ wake_up (Some "12345") wake_world
     = wake_up_found "12345" car wake_world.
Proof.
  assert (Hne : String_of_argument (Some "12345") <> "") by discriminate.
  split; [exact Hne|]. split; [reflexivity|].
  exact (proj1 (wake_up_resolution (Some "12345") wake_world Hne)).
Defined.

(** C6 as stated fails for the empty token: no cached vehicle matches it,
    yet the error is "Vehicle ID is required", not the not-found error. *)
Lemma wake_up_empty_token_counterexample :
  find (matches "") (vehiclesCache (cache wake_world)) = None
  /\ wake_up (Some "") wake_world
     = (Throw (Error (Str "Vehicle ID is required")), wake_world)
  /\ Error (Str "Vehicle ID is required") <> NOT_FOUND "".
Proof. repeat split. discriminate. Qed.

(** The [try] around the remote wake call changes the outcome only. *)
Lemma wake_up_found_world (vehicleId : string) (vehicle : Vehicle) (w : World) :
  snd (wake_up_found vehicleId vehicle w)
  = snd (TeslaService.wakeUp vehicleId w).
Proof.
  unfold wake_up_found, try_catch, bind, ret, throw.
  destruct (TeslaService.wakeUp vehicleId w) as [[[r|]|e] w1]; reflexivity.
Qed.

(** The remote client's [wakeUp] records its entry with the identifier it
    was given and sends requests only to the token endpoint and to the wake
    path of that identifier. *)
Lemma wakeUp_trace (vehicleId : string) (w : World) :
  exists evs,
    trace (remote (snd (TeslaService.wakeUp vehicleId w)))
    = trace (remote w) ++ CallWakeUp vehicleId :: evs
    /\ Forall (wake_request_of vehicleId) evs.
Proof.
  unfold TeslaService.wakeUp. unfold bind at 1. cbn [emit modify].
  unfold bind at 1.
  pose proof (getAccessToken_step (snd (emit (CallWakeUp vehicleId) w))) as S.
  change (snd (emit (CallWakeUp vehicleId) w)) with
    (set_remote {| clock := clock (remote w); env := env (remote w);
                   auth_replies := auth_replies (remote w);
                   list_replies := list_replies (remote w);
                   wake_replies := wake_replies (remote w);
                   trace := trace (remote w) ++ [CallWakeUp vehicleId] |} w)
    in S.
  destruct (TeslaService.getAccessToken _) as [[token|e] w1]; cbn [fst snd] in S.
  - assert (Ht : exists evs,
               trace (remote w1)
               = trace (remote w) ++ CallWakeUp vehicleId :: evs
               /\ Forall (wake_request_of vehicleId) evs).
    { destruct (ts_trace _ _ S) as [E|E]; rewrite E; cbn.
      - exists []. auto.
      - exists [Http POST AUTH_URL None]. rewrite <- app_assoc.
        split; [reflexivity|]. repeat constructor. }
    destruct Ht as (evs & E1 & E2).
    unfold TeslaService.post_wake. unfold_monad.
    destruct_world w1. cbn in *.
    destruct reg; cbn; [|eauto].
    assert (F : Forall (wake_request_of vehicleId)
                  (evs ++ [Http POST (TeslaService.wakeUpUrl vehicleId)
                             (Some token)])).
    { apply Forall_app. split; [exact E2|].
      constructor; [right; eauto|constructor]. }
    destruct_reply wr; cbn; rewrite E1, <- app_assoc; cbn; eauto.
  - cbn [snd]. destruct (ts_trace _ _ S) as [E|E]; rewrite E; cbn.
    + exists []. auto.
    + exists [Http POST AUTH_URL None]. rewrite <- app_assoc.
      split; [reflexivity|]. repeat constructor.
Qed.

(** C7, as amended.  For a non-empty token that matches a cached vehicle,
    the adapter checks only that the match exists and calls the remote
    client's [wakeUp] with the token as the user supplied it: the wake request
    goes to the path built from the supplied token, whichever of the three
    forms it has. *)
Theorem wake_passes_supplied_token (argument : option string) (w : World)
    (v : Vehicle)
    (Hne : String_of_argument argument <> "")
    (Hfound : resolve (String_of_argument argument) w = Some v) :
  snd (wake_up argument w)
  = snd (TeslaService.wakeUp (String_of_argument argument)
           (snd (getVehicles false w)))
  /\ exists evs,
       trace (remote (snd (wake_up argument w)))
       = trace (remote (snd (getVehicles false w)))
         ++ CallWakeUp (String_of_argument argument) :: evs
       /\ Forall (wake_request_of (String_of_argument argument)) evs.
Proof.
  rewrite wake_up_unfold by exact Hne. rewrite Hfound.
  rewrite wake_up_found_world. split; [reflexivity|]. apply wakeUp_trace.
Qed.

Lemma wake_passes_supplied_token_witness :
  String_of_argument (Some "12345") <> ""
  /\ resolve (String_of_argument (Some "12345")) wake_world = Some car
  /\ snd (wake_up (Some "12345") wake_world)
     = snd (TeslaService.wakeUp "12345" (snd (getVehicles false wake_world))).
Proof.
  assert (Hne : String_of_argument (Some "12345") <> "") by discriminate.
  split; [exact Hne|]. split; [reflexivity|].
  exact (proj1 (wake_passes_supplied_token (Some "12345") wake_world car
                  Hne eq_refl)).
Defined.

(** C7 as stated fails: the tokens "1" and "12345" resolve to the same
    cached vehicle, but the wake requests go to two different paths, each
    built from the token as supplied. *)
Lemma wake_path_counterexample :
  resolve "1" wake_world = Some car
  /\ resolve "12345" wake_world = Some car
  /\ trace (remote (snd (wake_up (Some "1") wake_world)))
     = [CallWakeUp "1";
        Http POST (BASE_URL ++ "/api/1/vehicles/1/wake_up") (Some "tok")]
  /\ trace (remote (snd (wake_up (Some "12345") wake_world)))
     = [CallWakeUp "12345";
        Http POST (BASE_URL ++ "/api/1/vehicles/12345/wake_up") (Some "tok")]
  /\ TeslaService.wakeUpUrl "1" <> TeslaService.wakeUpUrl "12345".
Proof.
  repeat split.
  apply String.eqb_neq. reflexivity.
Qed.

(* ===================================================================== *)
(** ** Further properties: token manager *)
(* ===================================================================== *)

(** X1.  When a credential is absent or empty, [authorize] sends nothing and
    changes nothing (no request, no scripted reply consumed, the token
    fields as they were), and its error names the first missing variable in
    the order client id, client secret, refresh token. *)
Theorem authorize_without_credentials (w : World) (name : string)
    (H : first_missing_credential (env (remote w)) = Some name) :
  TeslaService.authorize w = (Throw (MISSING_CREDENTIAL name), w).
Proof.
  revert H.
  unfold first_missing_credential, MISSING_CREDENTIAL, TeslaService.authorize.
  unfold_monad. destruct_world w. cbn.
  destruct (falsy cid); cbn; [intros H; injection H as <-; reflexivity|].
  destruct (falsy sec); cbn; [intros H; injection H as <-; reflexivity|].
  destruct (falsy rt); cbn; [intros H; injection H as <-; reflexivity|].
  discriminate.
Qed.

Lemma authorize_without_credentials_witness :
  first_missing_credential (env (remote missing_secret_world))
  = Some "TESLA_CLIENT_SECRET"
  /\ TeslaService.authorize missing_secret_world
     = (Throw (MISSING_CREDENTIAL "TESLA_CLIENT_SECRET"), missing_secret_world).
Proof.
  split; [reflexivity|].
  apply (authorize_without_credentials missing_secret_world
           "TESLA_CLIENT_SECRET").
  reflexivity.
Defined.

(** X2.  A token that a call returned is served again, without any request
    and without any change of state, by every later call made before the
    clock reaches the expiry instant the service holds. *)
Theorem token_reuse (w : World) (t : string) (dt : Z)
    (Hret : fst (TeslaService.getAccessToken w) = Return t)
    (Hvalid : num_ge
                (Num (clock (remote (snd (TeslaService.getAccessToken w))) + dt))
                (tokenExpiration (svc (snd (TeslaService.getAccessToken w))))
              = false) :
  TeslaService.getAccessToken (advance dt (snd (TeslaService.getAccessToken w)))
  = (Return t, advance dt (snd (TeslaService.getAccessToken w))).
Proof.
  destruct (getAccessToken_returns_truthy w t Hret) as [Ht Hf].
  apply getAccessToken_serves_held; assumption.
Qed.

(** The refreshed token of the expiring scenario is served again 3599
    seconds later. *)
Lemma token_reuse_witness :
  fst (TeslaService.getAccessToken expiring_world) = Return "new"
  /\ TeslaService.getAccessToken
       (advance 3599000 (snd (TeslaService.getAccessToken expiring_world)))
     = (Return "new",
        advance 3599000 (snd (TeslaService.getAccessToken expiring_world))).
Proof.
  split; [reflexivity|].
  apply (token_reuse expiring_world "new" 3599000); reflexivity.
Defined.

(** X3.  When the refresh is answered with a non-empty token but without a
    validity duration, the expiry becomes [NaN] and the token is never
    refreshed again: every later call, at any clock value, returns it without
    a request. *)
Theorem missing_duration_never_expires (w : World) (dl st : Z) (t : string)
    (rest : list (Reply TokenData)) (dt : Z)
    (Hstale : TeslaService.token_needs_refresh w = true)
    (Hcred : credentials_absent w = false)
    (Hreply : auth_replies (remote w)
              = {| delay := dl;
                   outcome := Resolved st (Some {| access_token := Some t;
                                                   expires_in := None |}) |}
                :: rest)
    (Ht : t <> "") :
  fst (TeslaService.getAccessToken w) = Return t
  /\ tokenExpiration (svc (snd (TeslaService.getAccessToken w))) = NaN
  /\ TeslaService.getAccessToken
       (advance dt (snd (TeslaService.getAccessToken w)))
     = (Return t, advance dt (snd (TeslaService.getAccessToken w))).
Proof.
  assert (Hf : falsy (Some t) = false).
  { cbn. unfold truthy. apply String.eqb_neq in Ht. rewrite Ht. reflexivity. }
  destruct (authorize_resolved w dl st _ rest Hcred Hreply)
    as (Ho & Htok & _ & Hexp).
  cbn in Htok, Hexp.
  assert (E : TeslaService.getAccessToken w
              = (Return t, snd (TeslaService.authorize w))).
  { rewrite getAccessToken_refresh by assumption. unfold bind.
    destruct (TeslaService.authorize w) as [o w1]; cbn [fst snd] in *.
    subst o. apply return_token_held; assumption. }
  rewrite E. cbn [fst snd]. split; [reflexivity|]. split; [exact Hexp|].
  apply getAccessToken_serves_held; [exact Htok|exact Hf|].
  change (tokenExpiration (svc (advance dt (snd (TeslaService.authorize w)))))
    with (tokenExpiration (svc (snd (TeslaService.authorize w)))).
  rewrite Hexp. reflexivity.
Qed.

Lemma missing_duration_never_expires_witness :
  TeslaService.token_needs_refresh no_duration_world = true
  /\ credentials_absent no_duration_world = false
  /\ fst (TeslaService.getAccessToken no_duration_world) = Return "tok"
  /\ TeslaService.getAccessToken
       (advance 1000000000000
          (snd (TeslaService.getAccessToken no_duration_world)))
     = (Return "tok",
        advance 1000000000000
          (snd (TeslaService.getAccessToken no_duration_world))).
Proof.
  split; [reflexivity|]. split; [reflexivity|].
  destruct (missing_duration_never_expires no_duration_world 0 200 "tok" []
              1000000000000 eq_refl eq_refl eq_refl
              ltac:(discriminate)) as (H1 & _ & H3).
  split; [exact H1 | exact H3].
Defined.

(** X4.  When the refresh is answered without an access token (absent or
    empty), the call fails with "Could not obtain access token", the token
    that was held is overwritten by the reply's, and every later call, at any
    clock value, attempts the refresh again. *)
Theorem reply_without_token (w : World) (dl st : Z) (data : TokenData)
    (rest : list (Reply TokenData))
    (Hstale : TeslaService.token_needs_refresh w = true)
    (Hcred : credentials_absent w = false)
    (Hreply : auth_replies (remote w)
              = {| delay := dl; outcome := Resolved st (Some data) |} :: rest)
    (Hfalsy : falsy (access_token data) = true) :
  fst (TeslaService.getAccessToken w)
  = Throw (Error (Str "Could not obtain access token"))
  /\ accessToken (svc (snd (TeslaService.getAccessToken w)))
     = access_token data
  /\ forall dt,
       TeslaService.token_needs_refresh
         (advance dt (snd (TeslaService.getAccessToken w))) = true.
Proof.
  destruct (authorize_resolved w dl st data rest Hcred Hreply)
    as (Ho & Htok & _ & _).
  rewrite getAccessToken_refresh by assumption. unfold bind.
  destruct (TeslaService.authorize w) as [o w1]; cbn [fst snd] in *. subst o.
  rewrite return_token_world.
  split; [|split].
  - unfold return_token. unfold_monad. cbn. rewrite Htok, Hfalsy.
    reflexivity.
  - exact Htok.
  - intros dt. unfold TeslaService.token_needs_refresh.
    change (accessToken (svc (advance dt w1))) with (accessToken (svc w1)).
    rewrite Htok, Hfalsy. reflexivity.
Qed.

Lemma reply_without_token_witness :
  TeslaService.token_needs_refresh no_token_reply_world = true
  /\ accessToken (svc no_token_reply_world) = Some "old"
  /\ fst (TeslaService.getAccessToken no_token_reply_world)
     = Throw (Error (Str "Could not obtain access token"))
  /\ accessToken (svc (snd (TeslaService.getAccessToken no_token_reply_world)))
     = None.
Proof.
  split; [reflexivity|]. split; [reflexivity|].
  destruct (reply_without_token no_token_reply_world 0 200
              {| access_token := None; expires_in := Some 3600 |} []
              eq_refl eq_refl eq_refl eq_refl) as (H1 & H2 & _).
  split; [exact H1 | exact H2].
Defined.

(* ===================================================================== *)
(** ** Further properties: remote vehicle client *)
(* ===================================================================== *)

Lemma getAccessToken_failure (w : World) :
  TeslaService.token_needs_refresh w = true ->
  credentials_absent w = true \/ token_call_fails w = true ->
  (exists m, fst (TeslaService.getAccessToken w)
             = Throw (Error (Cat "Failed to authorize with Tesla API: " m)))
  /\ svc (snd (TeslaService.getAccessToken w)) = svc w.
Proof.
  intros Hstale Hfail.
  destruct (authorize_failure w Hfail) as [[m Hm] Hsvc].
  rewrite getAccessToken_refresh by assumption. unfold bind.
  destruct (TeslaService.authorize w) as [o w1]; cbn [fst snd] in *. subst o.
  cbn [fst snd]. eauto.
Qed.

Lemma token_step_list_requests (w w' : World) :
  token_step w w' -> list_requests w' = list_requests w.
Proof.
  intros S. unfold list_requests.
  destruct (ts_trace _ _ S) as [E|E]; rewrite E; [reflexivity|].
  rewrite filter_app. cbn. rewrite app_nil_r. reflexivity.
Qed.

(** X5.  When a refresh is due and it fails (credential missing, token
    request rejected or answered with a null body), the list operation fails
    with the authorization error itself, not with the generic "Failed to
    fetch vehicles"; no request is sent to the list endpoint and the token
    fields stay as they were. *)
Theorem list_operation_auth_failure (w : World)
    (Hstale : TeslaService.token_needs_refresh w = true)
    (Hfail : credentials_absent w = true \/ token_call_fails w = true) :
  (exists m, fst (TeslaService.getVehicles w)
             = Throw (Error (Cat "Failed to authorize with Tesla API: " m)))
  /\ svc (snd (TeslaService.getVehicles w)) = svc w
  /\ list_requests (snd (TeslaService.getVehicles w)) = list_requests w.
Proof.
  destruct (getAccessToken_failure (snd (emit CallGetVehicles w)) Hstale Hfail)
    as [[m Hm] Hsvc].
  pose proof (token_step_list_requests _ _
                (getAccessToken_step (snd (emit CallGetVehicles w)))) as Hreq.
  rewrite service_getVehicles_unfold.
  destruct (TeslaService.getAccessToken _) as [o w1]; cbn [fst snd] in *.
  subst o. cbn [fst snd]. split; [exists m; reflexivity|].
  split; [exact Hsvc|]. rewrite Hreq. unfold list_requests. cbn. rewrite filter_app. cbn.
  rewrite app_nil_r. reflexivity.
Qed.

Lemma list_operation_auth_failure_witness :
  TeslaService.token_needs_refresh auth_down_world = true
  /\ token_call_fails auth_down_world = true
  /\ fst (TeslaService.getVehicles auth_down_world)
     = Throw (Error (Cat "Failed to authorize with Tesla API: "
                       (JSON_stringify_string (Str "timeout"))))
  /\ list_requests (snd (TeslaService.getVehicles auth_down_world)) = 0%nat.
Proof.
  split; [reflexivity|]. split; [reflexivity|]. split; [reflexivity|].
  exact (proj2 (proj2 (list_operation_auth_failure auth_down_world eq_refl
                         (or_intror eq_refl)))).
Defined.

Lemma post_wake_effect (url token : string) (w : World) :
  trace (remote (snd (TeslaService.post_wake url token w)))
  = trace (remote w) ++ [Http POST url (Some token)]
  /\ cache (snd (TeslaService.post_wake url token w)) = cache w
  /\ svc (snd (TeslaService.post_wake url token w)) = svc w
  /\ env (remote (snd (TeslaService.post_wake url token w))) = env (remote w)
  /\ list_replies (remote (snd (TeslaService.post_wake url token w)))
     = list_replies (remote w).
Proof.
  unfold TeslaService.post_wake. unfold_monad. destruct_world w. cbn.
  destruct_reply wr; cbn; auto.
Qed.

(** [wakeUp] in closed form. *)
Lemma wakeUp_unfold (vehicleId : string) (w : World) :
  TeslaService.wakeUp vehicleId w =
  match TeslaService.getAccessToken (entered (CallWakeUp vehicleId) w) with
  | (Return token, w1) =>
      if isRegistered (svc w1) then
        (match wake_reply_outcome w1 with
         | Return r => Return r
         | Throw e => Throw (WAKE_FAILED e)
         end,
         snd (TeslaService.post_wake (TeslaService.wakeUpUrl vehicleId)
                token w1))
      else (Throw (WAKE_FAILED (Error (Str TeslaService.NOT_REGISTERED))), w1)
  | (Throw e, w1) => (Throw e, w1)
  end.
Proof.
  unfold TeslaService.wakeUp at 1. unfold bind at 1. cbn [emit modify].
  unfold bind at 1.
  change (entered (CallWakeUp vehicleId) w) with
    (set_remote {| clock := clock (remote w); env := env (remote w);
                   auth_replies := auth_replies (remote w);
                   list_replies := list_replies (remote w);
                   wake_replies := wake_replies (remote w);
                   trace := trace (remote w) ++ [CallWakeUp vehicleId] |} w).
  destruct (TeslaService.getAccessToken _) as [[token|e] w1]; [|reflexivity].
  unfold wake_reply_outcome, WAKE_FAILED, TeslaService.post_wake.
  unfold_monad. destruct_world w1. cbn.
  destruct reg; cbn; [|reflexivity].
  destruct_reply wr; cbn; reflexivity.
Qed.

(** X6.  Once the token is obtained, [wakeUp] of an unregistered application
    sends no wake request and fails with "Failed to wake up vehicle: "
    followed by the registration message (which the list operation hides);
    a registered one sends exactly one POST to the wake path of the
    identifier it was given, with the obtained token as bearer, and returns
    the reply's [response] (none when the body has no such field) or fails
    with "Failed to wake up vehicle: " followed by the message of the
    request's error. *)
Theorem wakeUp_outcomes (vehicleId : string) (w w1 : World) (token : string)
    (Htoken : TeslaService.getAccessToken (entered (CallWakeUp vehicleId) w)
              = (Return token, w1)) :
  (isRegistered (svc w) = false ->
     TeslaService.wakeUp vehicleId w
     = (Throw (Error (Cat "Failed to wake up vehicle: "
                        (Str TeslaService.NOT_REGISTERED))), w1))
  /\ (isRegistered (svc w) = true ->
      fst (TeslaService.wakeUp vehicleId w)
      = match wake_reply_outcome w1 with
        | Return r => Return r
        | Throw e =>
            Throw (Error (Cat "Failed to wake up vehicle: " (error_message e)))
        end
      /\ trace (remote (snd (TeslaService.wakeUp vehicleId w)))
         = trace (remote w1)
           ++ [Http POST (TeslaService.wakeUpUrl vehicleId) (Some token)]).
Proof.
  pose proof (ts_registered _ _
                (getAccessToken_step (entered (CallWakeUp vehicleId) w)))
    as Hreg.
  rewrite wakeUp_unfold. rewrite Htoken in *. cbn [fst snd] in Hreg.
  change (isRegistered (svc (entered (CallWakeUp vehicleId) w)))
    with (isRegistered (svc w)) in Hreg.
  rewrite Hreg. split; intros R; rewrite R.
  - reflexivity.
  - split; [reflexivity|]. cbn [snd]. apply post_wake_effect.
Qed.

Lemma wakeUp_outcomes_witness :
  TeslaService.getAccessToken (entered (CallWakeUp "1") unregistered_wake_world)
  = (Return "tok", entered (CallWakeUp "1") unregistered_wake_world)
  /\ isRegistered (svc unregistered_wake_world) = false
  /\ TeslaService.wakeUp "1" unregistered_wake_world
     = (Throw (Error (Cat "Failed to wake up vehicle: "
                        (Str TeslaService.NOT_REGISTERED))),
        entered (CallWakeUp "1") unregistered_wake_world).
Proof.
  split; [reflexivity|]. split; [reflexivity|].
  exact (proj1 (wakeUp_outcomes "1" unregistered_wake_world
                  (entered (CallWakeUp "1") unregistered_wake_world)
                  "tok" eq_refl) eq_refl).
Defined.

(* ===================================================================== *)
(** ** Frames of the operations *)
(* ===================================================================== *)

Lemma trace_prefix_refl (t : list Event) : trace_prefix t t.
Proof. exists []. symmetry. apply app_nil_r. Qed.

Lemma trace_prefix_trans (a b c : list Event) :
  trace_prefix a b -> trace_prefix b c -> trace_prefix a c.
Proof.
  intros [x ->] [y ->]. exists (x ++ y). symmetry. apply app_assoc.
Qed.

Lemma trace_prefix_app (a evs : list Event) : trace_prefix a (a ++ evs).
Proof. exists evs. reflexivity. Qed.

Lemma config_step_refl (w : World) : config_step w w.
Proof. constructor; auto using trace_prefix_refl. Qed.

Lemma config_step_trans (a b c : World) :
  config_step a b -> config_step b c -> config_step a c.
Proof.
  intros [r1 e1 t1] [r2 e2 t2]. constructor.
  - congruence.
  - congruence.
  - eapply trace_prefix_trans; eassumption.
Qed.

Lemma token_step_config (w w' : World) : token_step w w' -> config_step w w'.
Proof.
  intros S. constructor.
  - apply (ts_registered _ _ S).
  - apply (ts_env _ _ S).
  - destruct (ts_trace _ _ S) as [E|E]; rewrite E;
      [apply trace_prefix_refl | apply trace_prefix_app].
Qed.

Lemma emit_config (e : Event) (w : World) : config_step w (entered e w).
Proof. constructor; cbn; auto. apply trace_prefix_app. Qed.

Lemma get_vehicles_config (token : string) (w : World) :
  config_step w (snd (TeslaService.get_vehicles token w)).
Proof.
  unfold TeslaService.get_vehicles. unfold_monad. destruct_world w. cbn.
  destruct_reply lr; cbn; constructor; cbn; auto; apply trace_prefix_app.
Qed.

Lemma post_wake_config (url token : string) (w : World) :
  config_step w (snd (TeslaService.post_wake url token w)).
Proof.
  destruct (post_wake_effect url token w) as (Et & _ & Es & Ee & _).
  constructor; [rewrite Es; reflexivity | exact Ee |].
  rewrite Et. apply trace_prefix_app.
Qed.

Lemma service_getVehicles_config (w : World) :
  config_step w (snd (TeslaService.getVehicles w)).
Proof.
  rewrite service_getVehicles_unfold.
  pose proof (token_step_config _ _
                (getAccessToken_step (snd (emit CallGetVehicles w)))) as S.
  pose proof (config_step_trans _ _ _ (emit_config CallGetVehicles w) S) as S'.
  destruct (TeslaService.getAccessToken _) as [[token|e] w1];
    cbn [fst snd] in *; [|exact S'].
  destruct (isRegistered (svc w1)); cbn [snd]; [|exact S'].
  eapply config_step_trans; [exact S'|apply get_vehicles_config].
Qed.

Lemma wakeUp_config (vehicleId : string) (w : World) :
  config_step w (snd (TeslaService.wakeUp vehicleId w)).
Proof.
  rewrite wakeUp_unfold.
  pose proof (token_step_config _ _
                (getAccessToken_step (entered (CallWakeUp vehicleId) w))) as S.
  pose proof (config_step_trans _ _ _ (emit_config (CallWakeUp vehicleId) w) S)
    as S'.
  destruct (TeslaService.getAccessToken _) as [[token|e] w1];
    cbn [fst snd] in *; [|exact S'].
  destruct (isRegistered (svc w1)); cbn [snd]; [|exact S'].
  eapply config_step_trans; [exact S'|apply post_wake_config].
Qed.

(** [wakeUp] never writes the cache. *)
Lemma wakeUp_cache (vehicleId : string) (w : World) :
  cache (snd (TeslaService.wakeUp vehicleId w)) = cache w.
Proof.
  rewrite wakeUp_unfold.
  pose proof (ts_cache _ _
                (getAccessToken_step (entered (CallWakeUp vehicleId) w))) as S.
  destruct (TeslaService.getAccessToken _) as [[token|e] w1];
    cbn [fst snd] in *; [|exact S].
  destruct (isRegistered (svc w1)); cbn [snd]; [|exact S].
  destruct (post_wake_effect (TeslaService.wakeUpUrl vehicleId) token w1)
    as (_ & Ec & _).
  rewrite Ec. exact S.
Qed.

Lemma getVehicles_config (forceRefresh : bool) (w : World) :
  config_step w (snd (getVehicles forceRefresh w)).
Proof.
  destruct (cache_needs_refresh forceRefresh w) eqn:E.
  - rewrite getVehicles_refresh by assumption.
    pose proof (service_getVehicles_config w) as S.
    destruct (TeslaService.getVehicles w) as [[vehicles|e] w1];
      cbn [fst snd] in *; [|exact S].
    destruct S as [r e t]. constructor; assumption.
  - rewrite getVehicles_fresh by assumption. apply config_step_refl.
Qed.

(* ===================================================================== *)
(** ** Further properties: vehicle cache *)
(* ===================================================================== *)

(** A read of an empty cache always invokes the list operation. *)
Lemma empty_cache_refreshes (forceRefresh : bool) (w : World) :
  vehiclesCache (cache w) = [] ->
  cache_needs_refresh forceRefresh w = true.
Proof.
  intros H. apply cache_needs_refresh_spec. right; left; exact H.
Qed.

(** X7.  A refresh that succeeds with no vehicle records the fetch-instant
    but leaves the cache empty, so it is never served from the cache: every
    later read, with any flag and at any clock value, invokes the list
    operation again. *)
Theorem empty_result_is_refetched (forceRefresh : bool) (w w1 : World)
    (Hrefresh : must_refresh forceRefresh w)
    (Hempty : TeslaService.getVehicles w = (Return [], w1)) :
  fst (getVehicles forceRefresh w) = Return []
  /\ cache (snd (getVehicles forceRefresh w))
     = {| vehiclesCache := []; lastVehicleFetch := clock (remote w) |}
  /\ forall flag w2,
       cache w2 = cache (snd (getVehicles forceRefresh w)) ->
       list_calls (snd (getVehicles flag w2)) = S (list_calls w2).
Proof.
  apply cache_needs_refresh_spec in Hrefresh.
  rewrite getVehicles_refresh by assumption. rewrite Hempty. cbn [fst snd].
  split; [reflexivity|]. split; [reflexivity|].
  intros flag w2 Hc. apply refresh_calls_once. apply empty_cache_refreshes.
  rewrite Hc. reflexivity.
Qed.

Lemma empty_result_is_refetched_witness :
  must_refresh false empty_account_world
  /\ fst (TeslaService.getVehicles empty_account_world) = Return []
  /\ fst (getVehicles false empty_account_world) = Return []
  /\ list_calls (snd (getVehicles false
                        (snd (getVehicles false empty_account_world))))
     = S (list_calls (snd (getVehicles false empty_account_world))).
Proof.
  assert (H : must_refresh false empty_account_world)
    by (right; left; reflexivity).
  split; [exact H|]. split; [reflexivity|].
  destruct (empty_result_is_refetched false empty_account_world
              (snd (TeslaService.getVehicles empty_account_world)) H eq_refl)
    as (H1 & _ & H3).
  split; [exact H1|]. apply H3. reflexivity.
Defined.

(** X8.  After a refresh that brought at least one vehicle, reads without
    the force flag are served from the cache, with no call and no change,
    as long as the clock is at most 60 seconds past the instant at which the
    refreshing read started (not the instant its reply arrived); past that,
    a read invokes the list operation again. *)
Theorem refreshed_cache_is_served (forceRefresh : bool) (w w1 w2 : World)
    (v : Vehicle) (vs : list Vehicle)
    (Hrefresh : must_refresh forceRefresh w)
    (Hok : TeslaService.getVehicles w = (Return (v :: vs), w1))
    (Hcache : cache w2 = cache (snd (getVehicles forceRefresh w))) :
  (clock (remote w2) <= clock (remote w) + 60000 ->
     getVehicles false w2 = (Return (v :: vs), w2))
  /\ (clock (remote w2) > clock (remote w) + 60000 ->
      list_calls (snd (getVehicles false w2)) = S (list_calls w2)).
Proof.
  apply cache_needs_refresh_spec in Hrefresh.
  rewrite getVehicles_refresh in Hcache by assumption.
  rewrite Hok in Hcache. cbn in Hcache.
  split; intros Hclk.
  - rewrite getVehicles_fresh; [rewrite Hcache; reflexivity|].
    apply not_must_refresh. unfold must_refresh. rewrite Hcache. cbn.
    intros [H|[H|H]]; [discriminate|discriminate|lia].
  - apply refresh_calls_once. apply cache_needs_refresh_spec.
    unfold must_refresh. rewrite Hcache. cbn. right; right. lia.
Qed.

(** With a list request that takes 61 seconds, the cache is already stale
    when the refreshing read returns. *)
Lemma refreshed_cache_is_served_witness :
  must_refresh false slow_remote_world
  /\ TeslaService.getVehicles slow_remote_world
     = (Return [car], snd (TeslaService.getVehicles slow_remote_world))
  /\ clock (remote (snd (getVehicles false slow_remote_world)))
     > clock (remote slow_remote_world) + 60000
  /\ list_calls (snd (getVehicles false
                        (snd (getVehicles false slow_remote_world))))
     = S (list_calls (snd (getVehicles false slow_remote_world))).
Proof.
  assert (H : must_refresh false slow_remote_world)
    by (right; left; reflexivity).
  split; [exact H|]. split; [reflexivity|].
  assert (C : clock (remote (snd (getVehicles false slow_remote_world)))
              > clock (remote slow_remote_world) + 60000)
    by (cbn; lia).
  split; [exact C|].
  exact (proj2 (refreshed_cache_is_served false slow_remote_world
                  (snd (TeslaService.getVehicles slow_remote_world))
                  (snd (getVehicles false slow_remote_world))
                  car [] H eq_refl eq_refl) C).
Defined.

(** X9.  The cache read never raises, with any flag and in any state: it
    always returns, and what it returns is the cache as the read leaves it,
    also when the list operation throws.  Hence the [try] block of the
    preload of [main] always completes, its [catch] is never reached, and
    the preload is the cache read. *)
Theorem preload_never_fails (w : World) :
  (forall forceRefresh,
      fst (getVehicles forceRefresh w)
      = Return (vehiclesCache (cache (snd (getVehicles forceRefresh w)))))
  /\ bind (getVehicles false) (fun _ => ret tt) w
     = (Return tt, snd (getVehicles false w))
  /\ preload w = (Return tt, snd (getVehicles false w)).
Proof.
  split; [intros f; apply getVehicles_returns_cache|].
  assert (B : bind (getVehicles false) (fun _ => ret tt) w
              = (Return tt, snd (getVehicles false w))).
  { unfold bind, ret.
    pose proof (getVehicles_returns_cache false w) as R.
    destruct (getVehicles false w) as [o w1]; cbn [fst snd] in *. subst o.
    reflexivity. }
  split; [exact B|].
  unfold preload, try_catch. rewrite B. reflexivity.
Qed.

(** With no reachable remote the list operation throws, and the preload
    returns all the same. *)
Lemma preload_never_fails_witness :
  fst (TeslaService.getVehicles offline_world)
  = Throw (Error (Cat "Failed to authorize with Tesla API: "
                    (JSON_stringify_string (Str "Network Error"))))
  /\ fst (getVehicles false offline_world) = Return []
  /\ fst (preload offline_world) = Return tt.
Proof.
  split; [reflexivity|].
  destruct (preload_never_fails offline_world) as (R & _ & P).
  split; [rewrite (R false); reflexivity | rewrite P; reflexivity].
Defined.

(* ===================================================================== *)
(** ** Further properties: tools *)
(* ===================================================================== *)

(** X10.  The [refresh_vehicles] tool never raises and invokes the list
    operation exactly once, whatever the cache age; its text always
    announces success, with the number of vehicles in the cache after the
    call, so that when the list operation failed it reports the size of the
    cache as it was. *)
Theorem refresh_vehicles_always_calls (w : World) :
  list_calls (snd (refresh_vehicles w)) = S (list_calls w)
  /\ fst (refresh_vehicles w)
     = Return ("Successfully refreshed the vehicle list. Found "
               ++ String_of_nat
                    (length (vehiclesCache (cache (snd (refresh_vehicles w)))))
               ++ " vehicles.")%string
  /\ forall e w1,
       TeslaService.getVehicles w = (Throw e, w1) ->
       cache (snd (refresh_vehicles w)) = cache w.
Proof.
  assert (E : refresh_vehicles w
              = (Return ("Successfully refreshed the vehicle list. Found "
                         ++ String_of_nat
                              (length (vehiclesCache
                                         (cache (snd (getVehicles true w)))))
                         ++ " vehicles.")%string,
                 snd (getVehicles true w))).
  { unfold refresh_vehicles, bind, gets, ret.
    pose proof (getVehicles_returns_cache true w) as R.
    destruct (getVehicles true w) as [o w1]; cbn [fst snd] in *. subst o.
    reflexivity. }
  rewrite E. cbn [fst snd]. split; [|split].
  - apply refresh_calls_once. reflexivity.
  - reflexivity.
  - intros e w1 Hfail.
    destruct (refresh_failure true w w1 e eq_refl Hfail) as [G C].
    rewrite G. exact C.
Qed.

(** On the unreachable remote the tool still announces success, with the one
    stale vehicle. *)
Lemma refresh_vehicles_always_calls_witness :
  fst (TeslaService.getVehicles unreachable_world) = Throw FAILED_TO_FETCH
  /\ fst (refresh_vehicles unreachable_world)
     = Return "Successfully refreshed the vehicle list. Found 1 vehicles."
  /\ list_calls (snd (refresh_vehicles unreachable_world)) = 1%nat.
Proof.
  split; [reflexivity|].
  destruct (refresh_vehicles_always_calls unreachable_world) as (C & T & _).
  split; [exact T | exact C].
Defined.

(** X11.  For a non-empty token that matches a cached vehicle, the
    [wake_up] tool reports the state the remote returned together with the
    display name of the cached vehicle (or "your Tesla"), answers with a
    "Failed to wake up" text, not an error, when the reply carries no
    vehicle, and prefixes every error of the remote client with "Failed to
    wake up vehicle: "; in no case does it write the cache, which keeps the
    vehicle's state as last fetched. *)
Theorem wake_up_reports_without_caching (argument : option string) (w : World)
    (v : Vehicle)
    (Hne : String_of_argument argument <> "")
    (Hfound : resolve (String_of_argument argument) w = Some v) :
  cache (snd (wake_up argument w)) = cache (snd (getVehicles false w))
  /\ fst (wake_up argument w)
     = match fst (TeslaService.wakeUp (String_of_argument argument)
                    (snd (getVehicles false w))) with
       | Return (Some r) =>
           Return ("Successfully woke up "
                   ++ or_else (display_name v) "your Tesla"
                   ++ " (state: " ++ state r ++ ")")%string
       | Return None =>
           Return ("Failed to wake up "
                   ++ or_else (display_name v) "your Tesla")%string
       | Throw e =>
           Throw (Error (Cat "Failed to wake up vehicle: " (error_message e)))
       end.
Proof.
  rewrite wake_up_unfold by exact Hne. rewrite Hfound. split.
  - rewrite wake_up_found_world. apply wakeUp_cache.
  - unfold wake_up_found, try_catch, bind, ret, throw.
    destruct (TeslaService.wakeUp _ _) as [[[r|]|e] w1]; reflexivity.
Qed.

(** The sleeping vehicle is reported online by the tool and still asleep in
    the cache. *)
Lemma wake_up_reports_without_caching_witness :
  String_of_argument (Some "VIN2") <> ""
  /\ resolve "VIN2" sleeping_world = Some unnamed_car
  /\ fst (wake_up (Some "VIN2") sleeping_world)
     = Return "Successfully woke up your Tesla (state: online)"
  /\ map state (vehiclesCache (cache (snd (wake_up (Some "VIN2") sleeping_world))))
     = ["asleep"].
Proof.
  assert (Hne : String_of_argument (Some "VIN2") <> "") by discriminate.
  split; [exact Hne|]. split; [reflexivity|].
  destruct (wake_up_reports_without_caching (Some "VIN2") sleeping_world
              unnamed_car Hne eq_refl) as [C T].
  split; [exact T|]. rewrite C. reflexivity.
Defined.

(** X12.  The tool list is empty exactly when the resource list is: from the
    same state both handlers see the same cache read. *)
Theorem tools_iff_resources (w : World) :
  fst (listTools w) = Return [] <-> fst (listResources w) = Return [].
Proof.
  unfold listTools, listResources, bind, ret.
  pose proof (getVehicles_returns_cache false w) as R.
  destruct (getVehicles false w) as [o w1]; cbn [fst snd] in *. subst o.
  destruct (vehiclesCache (cache w1)); cbn; split; intros H;
    try reflexivity; discriminate.
Qed.

(* ===================================================================== *)
(** ** Further properties: resources, prompts and the request loop *)
(* ===================================================================== *)

Section Builtins.

Variable URL_hostname : string -> option string.
Variable JSON_stringify_vehicle : Vehicle -> string.

Lemma readResource_unfold (uri h : string) (w : World) :
  URL_hostname uri = Some h ->
  readResource URL_hostname JSON_stringify_vehicle uri w
  = match find (fun v => String.eqb (id v) h)
            (vehiclesCache (cache (snd (getVehicles false w)))) with
    | Some vehicle =>
        (Return [{| Contents.uri := uri;
                    Contents.mimeType := "application/json";
                    Contents.text := JSON_stringify_vehicle vehicle |}],
         snd (getVehicles false w))
    | None => (Throw (NOT_FOUND h), snd (getVehicles false w))
    end.
Proof.
  intros Hh. unfold readResource. rewrite Hh. unfold bind.
  pose proof (getVehicles_returns_cache false w) as R.
  destruct (getVehicles false w) as [o w1]; cbn [fst snd] in *. subst o.
  destruct (find _ _); reflexivity.
Qed.

(** X13.  Reading a resource resolves the uri's host against vehicle ids
    only: when no vehicle of the cache (as the read leaves it) has that id,
    the handler fails with "Vehicle <host> not found", even if the host is
    the VIN or the vehicle_id of a cached vehicle, and it does nothing but
    the cache read. *)
Theorem read_resource_by_id_only (uri h : string) (w : World)
    (Hhost : URL_hostname uri = Some h)
    (Hnone : forall u,
        In u (vehiclesCache (cache (snd (getVehicles false w)))) ->
        id u <> h) :
  readResource URL_hostname JSON_stringify_vehicle uri w = (Throw (NOT_FOUND h), snd (getVehicles false w)).
Proof.
  rewrite (readResource_unfold uri h w Hhost).
  assert (F : find (fun v => String.eqb (id v) h)
                (vehiclesCache (cache (snd (getVehicles false w)))) = None).
  { induction (vehiclesCache (cache (snd (getVehicles false w))))
      as [|u l IH]; cbn; [reflexivity|].
    destruct (String.eqb_spec (id u) h) as [E|E].
    - exfalso. apply (Hnone u); [left; reflexivity | exact E].
    - apply IH. intros u' Hu'. apply Hnone. right. exact Hu'. }
  rewrite F. reflexivity.
Qed.

(** X15.  The prompt handler rejects every name but "summarize_vehicles"
    with "Unknown prompt" before any cache read.  For that name it never
    raises and does nothing but the cache read: when the read yields no
    vehicle it answers the single text that no vehicle is connected;
    otherwise it answers, in this order, the introduction text, one embedded
    resource per cached vehicle in cache order (uri "tesla://" followed by
    the id, mime type "application/json", the vehicle's JSON text) and the
    closing request text; every message has the role "user", and the
    embedded uris are those the resource list gives the same vehicles. *)
Theorem prompt_messages (name : string) (w : World) :
  (name <> "summarize_vehicles" ->
     getPrompt JSON_stringify_vehicle name w
     = (Throw (Error (Str "Unknown prompt")), w))
  /\ getPrompt JSON_stringify_vehicle "summarize_vehicles" w
     = (Return
          match vehiclesCache (cache (snd (getVehicles false w))) with
          | [] =>
              [{| role := "user";
                  content := TextContent NO_VEHICLES_PROMPT |}]
          | v :: vs =>
              {| role := "user"; content := TextContent PROMPT_INTRODUCTION |}
              :: map (fun u =>
                        {| role := "user";
                           content :=
                             EmbeddedResource
                               {| Contents.uri := "tesla://" ++ id u;
                                  Contents.mimeType := "application/json";
                                  Contents.text := JSON_stringify_vehicle u |}
                        |})
                     (v :: vs)
              ++ [{| role := "user";
                     content := TextContent PROMPT_REQUEST |}]
          end,
        snd (getVehicles false w))
  /\ map (fun u => ("tesla://" ++ id u)%string)
         (vehiclesCache (cache (snd (getVehicles false w))))
     = map Resource.uri
         (map resource_of (vehiclesCache (cache (snd (getVehicles false w))))).
Proof.
  split; [|split].
  - intros Hname. unfold getPrompt.
    apply String.eqb_neq in Hname. rewrite Hname. reflexivity.
  - unfold getPrompt. rewrite String.eqb_refl.
    change (negb true) with false. cbv iota. unfold bind, ret.
    pose proof (getVehicles_returns_cache false w) as R.
    destruct (getVehicles false w) as [o w1]; cbn [fst snd] in *. subst o.
    destruct (vehiclesCache (cache w1)) as [|v vs]; reflexivity.
  - rewrite map_map. reflexivity.
Qed.

End Builtins.

(** A uri whose host is the car's VIN is not found, and the fresh cache is
    left alone. *)
Lemma read_resource_by_id_only_witness :
  host_after_scheme "tesla://5YJ3E1EA7JF000001" = Some "5YJ3E1EA7JF000001"
  /\ vin car = "5YJ3E1EA7JF000001"
  /\ readResource host_after_scheme vin_as_json "tesla://5YJ3E1EA7JF000001"
       at_59_seconds
     = (Throw (NOT_FOUND "5YJ3E1EA7JF000001"), at_59_seconds).
Proof.
  split; [reflexivity|]. split; [reflexivity|].
  apply (read_resource_by_id_only host_after_scheme vin_as_json
           "tesla://5YJ3E1EA7JF000001" "5YJ3E1EA7JF000001" at_59_seconds).
  - reflexivity.
  - cbn. intros u [<-|[]]. discriminate.
Defined.

(** An unknown prompt name is rejected and the fresh cache is left alone. *)
Lemma prompt_messages_witness :
  "summarize" <> "summarize_vehicles"
  /\ getPrompt vin_as_json "summarize" at_59_seconds
     = (Throw (Error (Str "Unknown prompt")), at_59_seconds).
Proof.
  assert (H : "summarize" <> "summarize_vehicles") by discriminate.
  split; [exact H|].
  exact (proj1 (prompt_messages vin_as_json "summarize" at_59_seconds) H).
Defined.

(** The prompt for the fresh cache with the one car. *)
Example prompt_for_one_car :
  fst (getPrompt vin_as_json "summarize_vehicles" at_59_seconds)
  = Return
      [{| role := "user"; content := TextContent PROMPT_INTRODUCTION |};
       {| role := "user";
          content := EmbeddedResource
                       {| Contents.uri := "tesla://1";
                          Contents.mimeType := "application/json";
                          Contents.text := "5YJ3E1EA7JF000001" |} |};
       {| role := "user"; content := TextContent PROMPT_REQUEST |}].
Proof. reflexivity. Qed.

(* --------------------------------------------------------------------- *)
(** *** The request loop *)
(* --------------------------------------------------------------------- *)

(** Any name but the three tools is rejected before any cache read. *)
Lemma unknown_tool (name : string) (argument : option string) (w : World) :
  name <> "wake_up" -> name <> "refresh_vehicles" ->
  name <> "debug_vehicles" ->
  callTool name argument w = (Throw (Error (Str "Unknown tool")), w).
Proof.
  intros H1 H2 H3. unfold callTool.
  apply String.eqb_neq in H1, H2, H3. rewrite H1, H2, H3. reflexivity.
Qed.

Lemma reads_only_config (w w' : World) : reads_only w w' -> config_step w w'.
Proof.
  intros [->|[f ->]]; [apply config_step_refl | apply getVehicles_config].
Qed.

Lemma reads_only_no_wake (w w' : World) :
  reads_only w w' -> wake_events w' = wake_events w.
Proof.
  intros [->|[f ->]]; [reflexivity | apply getVehicles_no_wake].
Qed.

Lemma refresh_vehicles_world (w : World) :
  snd (refresh_vehicles w) = snd (getVehicles true w).
Proof.
  unfold refresh_vehicles, bind, gets, ret.
  pose proof (getVehicles_returns_cache true w) as R.
  destruct (getVehicles true w) as [o w1]; cbn [fst snd] in *. subst o.
  reflexivity.
Qed.

Lemma wake_up_config (argument : option string) (w : World) :
  config_step w (snd (wake_up argument w)).
Proof.
  destruct (String.eqb_spec (String_of_argument argument) "") as [E|E].
  - unfold wake_up, truthy. rewrite E. cbn. apply config_step_refl.
  - rewrite wake_up_unfold by exact E.
    destruct (resolve _ w) as [v|]; cbn [snd].
    + rewrite wake_up_found_world.
      eapply config_step_trans; [apply getVehicles_config|apply wakeUp_config].
    + apply getVehicles_config.
Qed.

Section RequestLoop.

Variable URL_hostname : string -> option string.
Variable JSON_stringify_vehicle : Vehicle -> string.

Lemma bind_ret_world {A B : Type} (c : M A) (f : A -> B) (w : World) :
  snd (bind c (fun a => ret (f a)) w) = snd (c w).
Proof. unfold bind, ret. destruct (c w) as [[a|e] w1]; reflexivity. Qed.

Lemma readResource_reads (uri : string) (w : World) :
  reads_only w (snd (readResource URL_hostname JSON_stringify_vehicle uri w)).
Proof.
  destruct (URL_hostname uri) as [h|] eqn:E.
  - rewrite (readResource_unfold URL_hostname JSON_stringify_vehicle uri h w E).
    right. exists false. destruct (find _ _); reflexivity.
  - unfold readResource. rewrite E. left. reflexivity.
Qed.

Lemma getPrompt_reads (name : string) (w : World) :
  reads_only w (snd (getPrompt JSON_stringify_vehicle name w)).
Proof.
  unfold getPrompt.
  destruct (String.eqb name "summarize_vehicles"); cbv beta iota delta [negb].
  - right. exists false. unfold bind, ret.
    destruct (getVehicles false w) as [[vs|e] w1]; [|reflexivity].
    destruct (length vs =? 0)%nat; reflexivity.
  - left. reflexivity.
Qed.

(** Every handler but the [wake_up] tool only reads the cache. *)
Lemma handle_reads (request : Request) (w : World) :
  is_wake_up_call (0, request) = false ->
  reads_only w (snd (handle URL_hostname JSON_stringify_vehicle request w)).
Proof.
  intros Hnw. destruct request as [|uri| |name argument| |name];
    unfold handle; rewrite bind_ret_world.
  - unfold listResources. rewrite read_then_format. right. exists false.
    reflexivity.
  - apply readResource_reads.
  - unfold listTools, bind, ret. right. exists false.
    destruct (getVehicles false w) as [[vs|e] w1]; [|reflexivity].
    destruct (length vs =? 0)%nat; reflexivity.
  - cbn in Hnw. unfold callTool. rewrite Hnw.
    destruct (String.eqb name "refresh_vehicles").
    + right. exists true. apply refresh_vehicles_world.
    + destruct (String.eqb name "debug_vehicles").
      * right. exists false. unfold debug_vehicles.
        rewrite read_then_format. reflexivity.
      * left. reflexivity.
  - left. reflexivity.
  - apply getPrompt_reads.
Qed.

Lemma handle_config (request : Request) (w : World) :
  config_step w (snd (handle URL_hostname JSON_stringify_vehicle request w)).
Proof.
  destruct (is_wake_up_call (0, request)) eqn:E.
  - destruct request as [|uri| |name argument| |name]; try discriminate E.
    cbn in E. unfold handle. rewrite bind_ret_world. unfold callTool.
    rewrite E. apply wake_up_config.
  - apply reads_only_config, handle_reads, E.
Qed.

Lemma advance_config (dt : Z) (w : World) : config_step w (advance dt w).
Proof. constructor; cbn; auto using trace_prefix_refl. Qed.

(** X16.  Over any sequence of requests, at any pace, the server never
    changes the registration flag read at construction nor the credentials,
    and the trace of calls and requests only grows: whatever was sent stays
    on record in order. *)
Theorem serve_keeps_configuration (requests : list (Z * Request)) (w : World) :
  isRegistered (svc (serve URL_hostname JSON_stringify_vehicle requests w))
  = isRegistered (svc w)
  /\ env (remote (serve URL_hostname JSON_stringify_vehicle requests w))
     = env (remote w)
  /\ trace_prefix (trace (remote w))
       (trace (remote (serve URL_hostname JSON_stringify_vehicle requests w))).
Proof.
  assert (S : config_step w
                (serve URL_hostname JSON_stringify_vehicle requests w)).
  { revert w. induction requests as [|[dt request] rest IH]; intros w; cbn.
    - apply config_step_refl.
    - eapply config_step_trans; [|apply IH].
      eapply config_step_trans; [apply (advance_config dt)|apply handle_config]. }
  destruct S as [r e t]. auto.
Qed.

(** X17.  Only the [wake_up] tool wakes a vehicle: a sequence of requests
    without any call of that tool, whatever else it contains, enters the
    remote client's [wakeUp] not once and sends no request to a wake
    path. *)
Theorem only_wake_up_wakes (requests : list (Z * Request)) (w : World)
    (H : forallb (fun dr => negb (is_wake_up_call dr)) requests = true) :
  wake_events (serve URL_hostname JSON_stringify_vehicle requests w)
  = wake_events w.
Proof.
  revert w H. induction requests as [|[dt request] rest IH]; intros w H; cbn.
  - reflexivity.
  - cbn in H. apply andb_true_iff in H. destruct H as [H1 H2].
    rewrite IH by exact H2.
    apply negb_true_iff in H1.
    rewrite (reads_only_no_wake _ _
               (handle_reads request (advance dt w) H1)).
    reflexivity.
Qed.

End RequestLoop.

Lemma only_wake_up_wakes_witness :
  forallb (fun dr => negb (is_wake_up_call dr)) browsing_session = true
  /\ wake_events (serve host_after_scheme vin_as_json browsing_session
                    starting_world) = [].
Proof.
  split; [reflexivity|].
  apply (only_wake_up_wakes host_after_scheme vin_as_json browsing_session
           starting_world).
  reflexivity.
Defined.

(* --------------------------------------------------------------------- *)
(** *** No request without a token *)
(* --------------------------------------------------------------------- *)

Lemma sends_authorized_refl (w : World) : sends_authorized w w.
Proof. exists []. split; [symmetry; apply app_nil_r | reflexivity]. Qed.

Lemma sends_authorized_trans (a b c : World) :
  sends_authorized a b -> sends_authorized b c -> sends_authorized a c.
Proof.
  intros (x & Ex & Hx) (y & Ey & Hy). exists (x ++ y). split.
  - rewrite Ey, Ex. symmetry. apply app_assoc.
  - rewrite forallb_app, Hx, Hy. reflexivity.
Qed.

Lemma sends_authorized_same_trace (w w' : World) :
  trace (remote w') = trace (remote w) -> sends_authorized w w'.
Proof.
  intros E. exists []. split; [rewrite E, app_nil_r|]; reflexivity.
Qed.

Lemma token_step_authorized (w w' : World) :
  token_step w w' -> sends_authorized w w'.
Proof.
  intros S. destruct (ts_trace _ _ S) as [E|E].
  - apply sends_authorized_same_trace, E.
  - exists [Http POST AUTH_URL None]. split; [exact E | reflexivity].
Qed.

Lemma truthy_of_falsy (t : string) : falsy (Some t) = false -> truthy t = true.
Proof. cbn. destruct (truthy t); [reflexivity | discriminate]. Qed.

(** An operation of the service: entry, token, then at most one request
    with the obtained token. *)
Lemma service_getVehicles_authorized (w : World) :
  sends_authorized w (snd (TeslaService.getVehicles w)).
Proof.
  rewrite service_getVehicles_unfold.
  pose proof (token_step_authorized _ _
                (getAccessToken_step (snd (emit CallGetVehicles w)))) as S.
  assert (S0 : sends_authorized w (snd (emit CallGetVehicles w)))
    by (exists [CallGetVehicles]; split; reflexivity).
  pose proof (sends_authorized_trans _ _ _ S0 S) as S'.
  pose proof (getAccessToken_returns_truthy (snd (emit CallGetVehicles w))) as T.
  destruct (TeslaService.getAccessToken _) as [[token|e] w1];
    cbn [fst snd] in *; [|exact S'].
  destruct (isRegistered (svc w1)); cbn [snd]; [|exact S'].
  eapply sends_authorized_trans; [exact S'|].
  destruct (get_vehicles_effect token w1) as (Et & _).
  exists [Http GET LIST_URL (Some token)]. split; [exact Et|].
  cbn. rewrite (truthy_of_falsy token (proj2 (T token eq_refl))). reflexivity.
Qed.

Lemma wakeUp_authorized (vehicleId : string) (w : World) :
  sends_authorized w (snd (TeslaService.wakeUp vehicleId w)).
Proof.
  rewrite wakeUp_unfold.
  pose proof (token_step_authorized _ _
                (getAccessToken_step (entered (CallWakeUp vehicleId) w))) as S.
  assert (S0 : sends_authorized w (entered (CallWakeUp vehicleId) w))
    by (exists [CallWakeUp vehicleId]; split; reflexivity).
  pose proof (sends_authorized_trans _ _ _ S0 S) as S'.
  pose proof (getAccessToken_returns_truthy
                (entered (CallWakeUp vehicleId) w)) as T.
  destruct (TeslaService.getAccessToken _) as [[token|e] w1];
    cbn [fst snd] in *; [|exact S'].
  destruct (isRegistered (svc w1)); cbn [snd]; [|exact S'].
  eapply sends_authorized_trans; [exact S'|].
  destruct (post_wake_effect (TeslaService.wakeUpUrl vehicleId) token w1)
    as (Et & _).
  exists [Http POST (TeslaService.wakeUpUrl vehicleId) (Some token)].
  split; [exact Et|].
  cbn [forallb authorized].
  rewrite (truthy_of_falsy token (proj2 (T token eq_refl))).
  rewrite orb_true_r. reflexivity.
Qed.

Lemma getVehicles_authorized (forceRefresh : bool) (w : World) :
  sends_authorized w (snd (getVehicles forceRefresh w)).
Proof.
  destruct (cache_needs_refresh forceRefresh w) eqn:E.
  - rewrite getVehicles_refresh by assumption.
    pose proof (service_getVehicles_authorized w) as S.
    destruct (TeslaService.getVehicles w) as [[vehicles|e] w1]; exact S.
  - rewrite getVehicles_fresh by assumption. apply sends_authorized_refl.
Qed.

Lemma wake_up_authorized (argument : option string) (w : World) :
  sends_authorized w (snd (wake_up argument w)).
Proof.
  destruct (String.eqb_spec (String_of_argument argument) "") as [E|E].
  - unfold wake_up, truthy. rewrite E. cbn. apply sends_authorized_refl.
  - rewrite wake_up_unfold by exact E.
    destruct (resolve _ w) as [v|]; cbn [snd].
    + rewrite wake_up_found_world.
      eapply sends_authorized_trans;
        [apply getVehicles_authorized|apply wakeUp_authorized].
    + apply getVehicles_authorized.
Qed.

Section AuthorizedRequests.

Variable URL_hostname : string -> option string.
Variable JSON_stringify_vehicle : Vehicle -> string.

Lemma handle_authorized (request : Request) (w : World) :
  sends_authorized w
    (snd (handle URL_hostname JSON_stringify_vehicle request w)).
Proof.
  destruct (is_wake_up_call (0, request)) eqn:E.
  - destruct request as [|uri| |name argument| |name]; try discriminate E.
    cbn in E. unfold handle. rewrite bind_ret_world. unfold callTool.
    rewrite E. apply wake_up_authorized.
  - destruct (handle_reads URL_hostname JSON_stringify_vehicle request w E)
      as [->|[f ->]];
      [apply sends_authorized_refl | apply getVehicles_authorized].
Qed.

(** X18.  Over any sequence of requests the server never sends a request to
    the list endpoint or to a wake path without a non-empty bearer token:
    everything the trace gains is an operation entry, a token request, or a
    request carrying a non-empty token. *)
Theorem serve_sends_authorized (requests : list (Z * Request)) (w : World) :
  exists evs,
    trace (remote (serve URL_hostname JSON_stringify_vehicle requests w))
    = trace (remote w) ++ evs
    /\ forallb authorized evs = true.
Proof.
  change (sends_authorized w
            (serve URL_hostname JSON_stringify_vehicle requests w)).
  revert w. induction requests as [|[dt request] rest IH]; intros w; cbn.
  - apply sends_authorized_refl.
  - eapply sends_authorized_trans; [|apply IH].
    eapply sends_authorized_trans; [|apply handle_authorized].
    apply sends_authorized_same_trace. reflexivity.
Qed.

End AuthorizedRequests.

(* ===================================================================== *)
(** ** Further properties: saving the refresh token *)
(* ===================================================================== *)

Module EnvFileFacts.

Import EnvFile.

Lemma starts_with_app (needle rest : text) :
  starts_with needle (needle ++ rest) = true.
Proof.
  induction needle as [|n needle IH]; cbn; [reflexivity|].
  rewrite N.eqb_refl. exact IH.
Qed.

Lemma starts_with_spec (needle hay : text) :
  starts_with needle hay = true -> exists rest, hay = needle ++ rest.
Proof.
  revert hay. induction needle as [|n needle IH]; intros hay H; cbn in *.
  - exists hay. reflexivity.
  - destruct hay as [|h hay]; [discriminate|].
    apply andb_true_iff in H. destruct H as [E H]. apply N.eqb_eq in E.
    destruct (IH hay H) as [rest ->]. exists rest. subst. reflexivity.
Qed.

Lemma skipn_needle (needle rest : text) :
  skipn (length needle) (needle ++ rest) = rest.
Proof. induction needle; cbn; auto. Qed.

(** The test looks at no more than the needle's length. *)
Lemma starts_with_window (needle s x y : text) :
  (length needle <= length s)%nat ->
  starts_with needle (s ++ x) = starts_with needle (s ++ y).
Proof.
  revert s. induction needle as [|n needle IH]; intros s L; cbn;
    [reflexivity|].
  destruct s as [|h s]; cbn in *; [lia|].
  rewrite (IH s) by lia. reflexivity.
Qed.

(** A failed test stays failed when the text goes on with a unit the needle
    does not contain. *)
Lemma starts_with_extend (needle s z : text) (u : N) :
  ~ In u needle -> starts_with needle s = false ->
  starts_with needle (s ++ u :: z) = false.
Proof.
  revert s. induction needle as [|n needle IH]; intros s Hu H; cbn in *;
    [discriminate|].
  destruct s as [|h s]; cbn.
  - destruct (N.eqb_spec n u) as [->|]; [|reflexivity].
    exfalso. apply Hu. left. reflexivity.
  - apply andb_false_iff in H. destruct H as [H|H].
    + rewrite H. reflexivity.
    + rewrite (IH s); [apply andb_false_r| |exact H].
      intros Hin. apply Hu. right. exact Hin.
Qed.

Lemma starts_with_skipn (needle hay : text) :
  starts_with needle hay = true ->
  hay = needle ++ skipn (length needle) hay.
Proof.
  intros S. destruct (starts_with_spec _ _ S) as [rest ->].
  rewrite skipn_needle. reflexivity.
Qed.

Lemma split_first_sound (needle hay before after : text) :
  split_first needle hay = Some (before, after) ->
  hay = before ++ needle ++ after.
Proof.
  revert before. induction hay as [|h hay IH]; intros before; cbn.
  - destruct (starts_with needle []) eqn:S; [|discriminate].
    intros H; injection H as <- <-. exact (starts_with_skipn _ _ S).
  - destruct (starts_with needle (h :: hay)) eqn:S.
    + intros H; injection H as <- <-. exact (starts_with_skipn _ _ S).
    + destruct (split_first needle hay) as [[b a]|]; [|discriminate].
      intros H; injection H as <- <-. cbn. f_equal. apply IH. reflexivity.
Qed.

Lemma split_first_leftmost (needle hay before after : text) :
  split_first needle hay = Some (before, after) ->
  forall b a, hay = b ++ needle ++ a -> (length before <= length b)%nat.
Proof.
  revert before. induction hay as [|h hay IH]; intros before; cbn.
  - destruct (starts_with needle []); [|discriminate].
    intros H; injection H as <- <-. intros; cbn; lia.
  - destruct (starts_with needle (h :: hay)) eqn:S.
    + intros H; injection H as <- <-. intros; cbn; lia.
    + destruct (split_first needle hay) as [[b0 a0]|] eqn:R; [|discriminate].
      intros H; injection H as <- <-. intros b a E.
      destruct b as [|h' b]; cbn in E.
      * rewrite E, starts_with_app in S. discriminate.
      * injection E as -> E. cbn. apply le_n_S. eapply IH; eauto.
Qed.

Lemma split_first_complete (needle hay : text) :
  split_first needle hay = None -> ~ occurs needle hay.
Proof.
  induction hay as [|h hay IH]; cbn.
  - destruct (starts_with needle []) eqn:S; [discriminate|].
    intros _ (b & a & E). destruct b; cbn in E.
    + rewrite E, starts_with_app in S. discriminate.
    + discriminate.
  - destruct (starts_with needle (h :: hay)) eqn:S; [discriminate|].
    destruct (split_first needle hay) as [[b0 a0]|] eqn:R; [discriminate|].
    intros _ (b & a & E). destruct b as [|h' b]; cbn in E.
    + rewrite E, starts_with_app in S. discriminate.
    + injection E as -> E. apply IH; [reflexivity|]. exists b, a. exact E.
Qed.

Lemma split_first_found (needle hay : text) :
  occurs needle hay -> exists before after,
    split_first needle hay = Some (before, after).
Proof.
  intros O. destruct (split_first needle hay) as [[b a]|] eqn:R; [eauto|].
  exfalso. exact (split_first_complete _ _ R O).
Qed.

Lemma split_first_eq (needle hay : text) :
  split_first needle hay
  = if starts_with needle hay then Some ([], skipn (length needle) hay)
    else
      match hay with
      | [] => None
      | h :: hay' =>
          match split_first needle hay' with
          | Some (before, after) => Some (h :: before, after)
          | None => None
          end
      end.
Proof. destruct hay; reflexivity. Qed.

Lemma split_first_here (needle x : text) :
  split_first needle (needle ++ x) = Some ([], x).
Proof.
  rewrite split_first_eq, starts_with_app, skipn_needle. reflexivity.
Qed.

(** The leftmost occurrence depends only on the text up to its end. *)
Lemma split_first_prefix (needle before x y : text) :
  split_first needle (before ++ needle ++ y) = Some (before, y) ->
  split_first needle (before ++ needle ++ x) = Some (before, x).
Proof.
  induction before as [|h before IH]; cbn [app].
  - intros _. apply split_first_here.
  - rewrite !(split_first_eq needle (h :: _)).
    change (h :: before ++ needle ++ y) with ((h :: before) ++ needle ++ y).
    change (h :: before ++ needle ++ x) with ((h :: before) ++ needle ++ x).
    rewrite !(app_assoc (h :: before) needle).
    rewrite (starts_with_window needle ((h :: before) ++ needle) x y)
      by (rewrite length_app; cbn; lia).
    destruct (starts_with needle (((h :: before) ++ needle) ++ y));
      [discriminate|].
    destruct (split_first needle (before ++ needle ++ y)) as [[b a]|] eqn:R;
      [|discriminate].
    intros H; injection H as -> ->. rewrite (IH eq_refl). reflexivity.
Qed.

(** In a text without the needle, followed by a unit the needle does not
    contain and then by the needle, the leftmost occurrence is that last
    one. *)
Lemma split_first_appended (needle c x : text) (u : N) :
  ~ In u needle ->
  split_first needle c = None ->
  split_first needle (c ++ u :: needle ++ x) = Some (c ++ [u], x).
Proof.
  intros Hu. induction c as [|h c IH]; cbn [app].
  - rewrite (split_first_eq needle []).
    destruct (starts_with needle []) eqn:S0; [discriminate|]. intros _.
    rewrite (split_first_eq needle (u :: _)).
    pose proof (starts_with_extend needle [] (needle ++ x) u Hu S0) as S1.
    cbn [app] in S1. rewrite S1, split_first_here. reflexivity.
  - rewrite (split_first_eq needle (h :: c)).
    destruct (starts_with needle (h :: c)) eqn:S; [discriminate|].
    destruct (split_first needle c) as [[b a]|] eqn:R; [discriminate|].
    intros _. rewrite (split_first_eq needle (h :: _)).
    pose proof (starts_with_extend needle (h :: c) (needle ++ x) u Hu S) as S1.
    cbn [app] in S1. rewrite S1, (IH eq_refl). reflexivity.
Qed.

Lemma span_line_spec (s line after : text) :
  span_line s = (line, after) ->
  s = line ++ after
  /\ Forall (fun u => is_line_terminator u = false) line
  /\ at_line_end after.
Proof.
  revert line after. induction s as [|u s IH]; intros line after; cbn.
  - intros H; injection H as <- <-. repeat split; [constructor|left; reflexivity].
  - destruct (is_line_terminator u) eqn:T.
    + intros H; injection H as <- <-.
      repeat split; [constructor|]. right. exists u, s. auto.
    + destruct (span_line s) as [l a]. intros H; injection H as <- <-.
      destruct (IH l a eq_refl) as (E & F & A). subst s.
      repeat split; [constructor; assumption | exact A].
Qed.

Lemma span_line_app (line after : text) :
  Forall (fun u => is_line_terminator u = false) line ->
  at_line_end after ->
  span_line (line ++ after) = (line, after).
Proof.
  intros F A. induction F as [|u line Hu F IH]; cbn.
  - destruct A as [->|(u & rest & -> & T)]; cbn; [reflexivity|].
    rewrite T. reflexivity.
  - rewrite Hu, IH. reflexivity.
Qed.

(** A template without "$" is its own substitution. *)
Lemma GetSubstitution_plain (matched before after template rest : text) :
  ~ In DOLLAR template ->
  GetSubstitution matched before after (template ++ rest)
  = template ++ GetSubstitution matched before after rest.
Proof.
  induction template as [|u t IH]; intros H; [reflexivity|].
  cbn [app GetSubstitution].
  destruct (N.eqb_spec u 36) as [->|_].
  - exfalso. apply H. left. reflexivity.
  - rewrite IH; [reflexivity|]. intros Hin. apply H. right. exact Hin.
Qed.

Lemma KEY_plain : ~ In DOLLAR KEY.
Proof.
  cbv. intros H.
  repeat (destruct H as [H|H]; [discriminate H|]). exact H.
Qed.

Lemma KEY_one_line : ~ In NEWLINE KEY.
Proof.
  cbv. intros H.
  repeat (destruct H as [H|H]; [discriminate H|]). exact H.
Qed.

Lemma substitution_of_plain_token (matched before after token : text) :
  ~ In DOLLAR token ->
  GetSubstitution matched before after (KEY ++ token) = KEY ++ token.
Proof.
  intros H. rewrite <- (app_nil_r (KEY ++ token)) at 1.
  rewrite GetSubstitution_plain; [cbn; rewrite app_nil_r; reflexivity|].
  intros Hin. apply in_app_or in Hin. destruct Hin as [Hin|Hin];
    [exact (KEY_plain Hin) | exact (H Hin)].
Qed.

(** The update when the key is found, for a token without "$". *)
Lemma update_found (content before rest line after token : text) :
  ~ In DOLLAR token ->
  split_first KEY content = Some (before, rest) ->
  span_line rest = (line, after) ->
  update content token = before ++ KEY ++ token ++ after.
Proof.
  intros Hp S L. unfold update. rewrite S, L.
  rewrite substitution_of_plain_token by exact Hp.
  rewrite <- app_assoc. reflexivity.
Qed.

End EnvFileFacts.

(** X19.  A refresh token without "$" is saved verbatim.  When the text
    "TESLA_REFRESH_TOKEN=" occurs in the file, its leftmost occurrence
    (wherever it is, also inside a longer name or a comment) and the rest of
    that line are replaced by the key and the token, and everything before
    and after, later occurrences included, is kept; when it does not occur,
    a line feed, the key with the token and a line feed are appended. *)
Theorem refresh_token_saved_verbatim (content token : EnvFile.text)
    (Hplain : ~ In EnvFile.DOLLAR token) :
  (EnvFile.occurs EnvFile.KEY content ->
     exists before line after,
       content = before ++ EnvFile.KEY ++ line ++ after
       /\ (forall b a, content = b ++ EnvFile.KEY ++ a ->
                       (length before <= length b)%nat)
       /\ Forall (fun u => EnvFile.is_line_terminator u = false) line
       /\ EnvFile.at_line_end after
       /\ EnvFile.update content token
          = before ++ EnvFile.KEY ++ token ++ after)
  /\ (~ EnvFile.occurs EnvFile.KEY content ->
      EnvFile.update content token
      = content ++ [EnvFile.NEWLINE] ++ EnvFile.KEY ++ token
        ++ [EnvFile.NEWLINE]).
Proof.
  split.
  - intros O.
    destruct (EnvFileFacts.split_first_found _ _ O) as (before & rest & S).
    destruct (EnvFile.span_line rest) as [line after] eqn:L.
    destruct (EnvFileFacts.span_line_spec _ _ _ L) as (E & F & A).
    exists before, line, after. split; [|split; [|split; [|split]]].
    + rewrite (EnvFileFacts.split_first_sound _ _ _ _ S), E. reflexivity.
    + exact (EnvFileFacts.split_first_leftmost _ _ _ _ S).
    + exact F.
    + exact A.
    + exact (EnvFileFacts.update_found _ _ _ _ _ _ Hplain S L).
  - intros N. unfold EnvFile.update.
    destruct (EnvFile.split_first EnvFile.KEY content) as [[b a]|] eqn:S;
      [|reflexivity].
    exfalso. apply N. exists b, a.
    exact (EnvFileFacts.split_first_sound _ _ _ _ S).
Qed.

Lemma refresh_token_saved_verbatim_witness :
  ~ In EnvFile.DOLLAR (EnvFile.of_string "new.token")
  /\ ~ EnvFile.occurs EnvFile.KEY env_without_token
  /\ EnvFile.update env_without_token (EnvFile.of_string "new.token")
     = EnvFile.of_string
         ("TESLA_CLIENT_ID=abc" ++ LF ++ "TESLA_CLIENT_SECRET=xyz" ++ LF
          ++ "TESLA_REFRESH_TOKEN=new.token" ++ LF).
Proof.
  assert (H : ~ In EnvFile.DOLLAR (EnvFile.of_string "new.token")).
  { cbv. intros H. repeat (destruct H as [H|H]; [discriminate H|]). exact H. }
  assert (O : ~ EnvFile.occurs EnvFile.KEY env_without_token)
    by (apply EnvFileFacts.split_first_complete; reflexivity).
  split; [exact H|]. split; [exact O|].
  exact (proj2 (refresh_token_saved_verbatim env_without_token
                  (EnvFile.of_string "new.token") H) O).
Defined.

(** The token line in the middle of a file is replaced and the lines around
    it are kept. *)
Example refresh_token_replaced_in_place :
  EnvFile.update env_with_token (EnvFile.of_string "new.token")
  = EnvFile.of_string
      ("TESLA_CLIENT_ID=abc" ++ LF ++ "TESLA_REFRESH_TOKEN=new.token" ++ LF
       ++ "TESLA_CLIENT_SECRET=xyz" ++ LF).
Proof. reflexivity. Qed.

(** X20.  Saving the same token twice gives the same file as saving it
    once, for a token that contains neither "$" nor a line terminator. *)
Theorem refresh_token_save_idempotent (content token : EnvFile.text)
    (Hplain : ~ In EnvFile.DOLLAR token)
    (Hline : Forall (fun u => EnvFile.is_line_terminator u = false) token) :
  EnvFile.update (EnvFile.update content token) token
  = EnvFile.update content token.
Proof.
  destruct (EnvFile.split_first EnvFile.KEY content) as [[before rest]|] eqn:S.
  - destruct (EnvFile.span_line rest) as [line after] eqn:L.
    destruct (EnvFileFacts.span_line_spec _ _ _ L) as (E & F & A).
    rewrite (EnvFileFacts.update_found _ _ _ _ _ _ Hplain S L).
    apply (EnvFileFacts.update_found _ before (token ++ after) token after);
      [exact Hplain| |].
    + apply (EnvFileFacts.split_first_prefix _ _ _ rest).
      rewrite <- (EnvFileFacts.split_first_sound _ _ _ _ S). exact S.
    + apply EnvFileFacts.span_line_app; assumption.
  - assert (U : EnvFile.update content token
                = (content ++ [EnvFile.NEWLINE]) ++ EnvFile.KEY ++ token
                  ++ [EnvFile.NEWLINE]).
    { unfold EnvFile.update. rewrite S. rewrite <- app_assoc. reflexivity. }
    rewrite U.
    apply (EnvFileFacts.update_found _ (content ++ [EnvFile.NEWLINE])
             (token ++ [EnvFile.NEWLINE]) token [EnvFile.NEWLINE]);
      [exact Hplain| |].
    + rewrite <- app_assoc. cbn [app].
      apply EnvFileFacts.split_first_appended;
        [exact EnvFileFacts.KEY_one_line | exact S].
    + apply EnvFileFacts.span_line_app; [exact Hline|].
      right. exists EnvFile.NEWLINE, []. split; reflexivity.
Qed.

Lemma refresh_token_save_idempotent_witness :
  ~ In EnvFile.DOLLAR (EnvFile.of_string "new.token")
  /\ Forall (fun u => EnvFile.is_line_terminator u = false)
            (EnvFile.of_string "new.token")
  /\ EnvFile.update
       (EnvFile.update env_without_token (EnvFile.of_string "new.token"))
       (EnvFile.of_string "new.token")
     = EnvFile.update env_without_token (EnvFile.of_string "new.token").
Proof.
  assert (H : ~ In EnvFile.DOLLAR (EnvFile.of_string "new.token")).
  { cbv. intros H. repeat (destruct H as [H|H]; [discriminate H|]). exact H. }
  assert (F : Forall (fun u => EnvFile.is_line_terminator u = false)
                (EnvFile.of_string "new.token"))
    by (repeat constructor).
  split; [exact H|]. split; [exact F|].
  exact (refresh_token_save_idempotent env_without_token
           (EnvFile.of_string "new.token") H F).
Defined.

(** X21.  The token is subject to the replacement patterns only when it
    replaces an existing line: there a "$$" in the token is saved as a single
    "$", so the file does not hold the token that was received; when the key
    is absent the token is appended as it is, whatever it contains. *)
Theorem refresh_token_dollar_pair (content p s : EnvFile.text)
    (Hp : ~ In EnvFile.DOLLAR p) (Hs : ~ In EnvFile.DOLLAR s) :
  (EnvFile.occurs EnvFile.KEY content ->
     exists before line after,
       content = before ++ EnvFile.KEY ++ line ++ after
       /\ EnvFile.update content
            (p ++ [EnvFile.DOLLAR; EnvFile.DOLLAR] ++ s)
          = before ++ EnvFile.KEY ++ p ++ [EnvFile.DOLLAR] ++ s ++ after)
  /\ (~ EnvFile.occurs EnvFile.KEY content ->
      forall token,
        EnvFile.update content token
        = content ++ [EnvFile.NEWLINE] ++ EnvFile.KEY ++ token
          ++ [EnvFile.NEWLINE]).
Proof.
  split.
  - intros O.
    destruct (EnvFileFacts.split_first_found _ _ O) as (before & rest & S).
    destruct (EnvFile.span_line rest) as [line after] eqn:L.
    destruct (EnvFileFacts.span_line_spec _ _ _ L) as (E & _ & _).
    exists before, line, after. split.
    + rewrite (EnvFileFacts.split_first_sound _ _ _ _ S), E. reflexivity.
    + unfold EnvFile.update. rewrite S, L. f_equal.
      rewrite (app_assoc EnvFile.KEY p).
      rewrite EnvFileFacts.GetSubstitution_plain.
      * cbn [app EnvFile.GetSubstitution EnvFile.DOLLAR N.eqb Pos.eqb].
        rewrite <- (app_nil_r s) at 1.
        rewrite EnvFileFacts.GetSubstitution_plain by exact Hs.
        cbn [EnvFile.GetSubstitution]. rewrite app_nil_r.
        rewrite <- !app_assoc. reflexivity.
      * intros Hin. apply in_app_or in Hin. destruct Hin as [Hin|Hin];
          [exact (EnvFileFacts.KEY_plain Hin) | exact (Hp Hin)].
  - intros N token. unfold EnvFile.update.
    destruct (EnvFile.split_first EnvFile.KEY content) as [[b a]|] eqn:S;
      [|reflexivity].
    exfalso. apply N. exists b, a.
    exact (EnvFileFacts.split_first_sound _ _ _ _ S).
Qed.

Lemma refresh_token_dollar_pair_witness :
  EnvFile.occurs EnvFile.KEY env_with_token
  /\ EnvFile.update env_with_token (EnvFile.of_string "a$$b")
     = EnvFile.of_string
         ("TESLA_CLIENT_ID=abc" ++ LF ++ "TESLA_REFRESH_TOKEN=a$b" ++ LF
          ++ "TESLA_CLIENT_SECRET=xyz" ++ LF)
  /\ EnvFile.update env_without_token (EnvFile.of_string "a$$b")
     = env_without_token ++ [EnvFile.NEWLINE] ++ EnvFile.KEY
       ++ EnvFile.of_string "a$$b" ++ [EnvFile.NEWLINE].
Proof.
  assert (Ha : ~ In EnvFile.DOLLAR (EnvFile.of_string "a")).
  { cbv. intros H. repeat (destruct H as [H|H]; [discriminate H|]). exact H. }
  assert (Hb : ~ In EnvFile.DOLLAR (EnvFile.of_string "b")).
  { cbv. intros H. repeat (destruct H as [H|H]; [discriminate H|]). exact H. }
  assert (N : ~ EnvFile.occurs EnvFile.KEY env_without_token)
    by (apply EnvFileFacts.split_first_complete; reflexivity).
  split; [|split; [reflexivity|]].
  - exists (EnvFile.of_string ("TESLA_CLIENT_ID=abc" ++ LF)),
           (EnvFile.of_string ("old" ++ LF ++ "TESLA_CLIENT_SECRET=xyz" ++ LF)).
    reflexivity.
  - exact (proj2 (refresh_token_dollar_pair env_without_token
                    (EnvFile.of_string "a") (EnvFile.of_string "b") Ha Hb)
                 N (EnvFile.of_string "a$$b")).
Defined.
